(** * numbapro/_minidispatch.pyx: the ufunc dispatcher

    A shallow embedding of [UFuncDispatcher] (its [__call__], [run_ufunc] and
    [run_higher_dimensional] methods) and the properties of the dispatcher
    that its design document states. *)

From stdpp Require Import base list strings gmap sorting.
From Stdlib Require Import ZArith Lia.

Local Open Scope Z_scope.

(** ** Machine arithmetic

    [cnp.npy_intp] is a signed 64-bit integer and [void *] a 64-bit address.
    Both are carried as [Z] with the wrap-around of the C operators written
    out. *)

Definition ptr_modulus : Z := 2 ^ 64.
Definition intp_max : Z := 2 ^ 63 - 1.

(** An address, reduced to the 64-bit address space. *)
Definition wrap_ptr (a : Z) : Z := a mod ptr_modulus.

(** A two's complement [npy_intp]. *)
Definition wrap_intp (a : Z) : Z := (a + 2 ^ 63) mod ptr_modulus - 2 ^ 63.

(** [p + s] and [p - s] on a [void *] (byte granularity). *)
Definition ptr_add (p s : Z) : Z := wrap_ptr (p + s).
Definition ptr_sub (p s : Z) : Z := wrap_ptr (p - s).

(** [a * b] on [npy_intp]. *)
Definition intp_mul (a b : Z) : Z := wrap_intp (a * b).

Definition in_ptr_range (p : Z) : Prop := 0 ≤ p < ptr_modulus.

(** The largest C [int], the type of the loop counters of the module
    ([cdef int i, j]). *)
Definition int_max : Z := 2 ^ 31 - 1.
Global Arguments int_max : simpl never.

(** ** Exceptions and outcomes *)

(** The exceptions [__call__] can leave with.  [TypeError] is the arity
    error of line 66, [ValueError_broadcast] is what [np.broadcast] raises on
    shapes that cannot be broadcast, [ValueError_no_signature] is the failed
    lookup of line 86, and [KernelError] is the error a kernel has set when
    it returns [-1] (the [except -1] of the [minifunc] type). *)
Inductive exn : Type :=
  | TypeError (expected got : nat)
  | ValueError_broadcast
  | ValueError_no_signature (arg_types : list string)
  | KernelError (err : string).

(** How a call ends: it returns a value, it raises, or the [int] counter of
    a loop over an [npy_intp] extent has passed [INT_MAX].  That is a signed
    overflow, which C leaves undefined (as compiled the counter wraps and
    the loop does not end).  What the program does from there on is not
    modelled: the state paired with [Overflowed] is the state the model had
    reached, and nothing is said about the program after it. *)
Inductive outcome (A : Type) : Type :=
  | Returned (a : A)
  | Raised (e : exn)
  | Overflowed.
Arguments Returned {A} a.
Arguments Raised {A} e.
Arguments Overflowed {A}.

(** ** What a kernel is called with

    [function_pointer(&shape[dim_level], data_pointers, strides)]: the kernel
    sees the shape from [dim_level] on, the array of data pointers, and for
    each operand the stride vector its stride pointer points at. *)
Record kernel_args : Type := KernelArgs {
  k_shape : list Z;
  k_data : list Z;
  k_strides : list (list Z)
}.

(** One entry of [strides_args]: a pointer into an operand's stride vector,
    kept as the vector and the current offset into it. *)
Record stride_ptr : Type := StridePtr {
  sp_vec : list Z;
  sp_off : nat
}.

(** [strides[j][d]]; reading past the vector is undefined in C and reads 0
    here. *)
Definition sp_read (sp : stride_ptr) (d : nat) : Z :=
  default 0 (sp_vec sp !! (sp_off sp + d)%nat).

(** The vector a kernel sees through a stride pointer. *)
Definition sp_view (sp : stride_ptr) : list Z := drop (sp_off sp) (sp_vec sp).

Definition shape_at (shape : list Z) (d : nat) : Z := default 0 (shape !! d).

(** [n] iterations of a loop body that may raise.  An exception leaves the
    loop at once with the state the body left. *)
Fixpoint for_range {St : Type} (n : nat) (body : St → outcome () * St)
    (s : St) : outcome () * St :=
  match n with
  | O => (Returned (), s)
  | S n' =>
      match body s with
      | (Returned _, s') => for_range n' body s'
      | (Raised e, s') => (Raised e, s')
      | (Overflowed, s') => (Overflowed, s')
      end
  end.

(** [for i in range(n): body] with [cdef int i] and [n] an [npy_intp], which
    Cython compiles to [for (i = 0; i < n; i++)].  With [n] up to [INT_MAX]
    the body runs [n] times (not at all for [n <= 0]).  With a greater [n]
    the counter reaches [INT_MAX] after [2^31] iterations, [i < n] still
    holds, and the increment overflows. *)
Definition for_int_range {St : Type} (n : Z) (body : St → outcome () * St)
    (s : St) : outcome () * St :=
  match for_range (Z.to_nat (Z.min n (int_max + 1))) body s with
  | (Returned _, s') =>
      if decide (n ≤ int_max) then (Returned (), s') else (Overflowed, s')
  | (Raised e, s') => (Raised e, s')
  | (Overflowed, s') => (Overflowed, s')
  end.

(** [for j in range(n_ops): l[j] = f j l[j]].  An index past the end of the
    array is undefined in C and changes nothing here. *)
Definition for_ops {A : Type} (n_ops : nat) (f : nat → A → A) (l : list A)
    : list A :=
  foldl (λ acc j, alter (f j) j acc) l (seq 0 n_ops).

Section Executor.

(** The memory the kernels read and write, and the meaning of a function
    pointer: calling the [minifunc] at address [fp] on some arguments
    changes the memory and either returns normally ([None]) or returns
    [-1] with an error set ([Some err]).  Kernels do not write to the
    [data_pointers] and [strides] arrays they are handed. *)
Context {World : Type}.
Variable call_minifunc : Z → kernel_args → World → World * option string.

(** The scratch arrays of one call, the memory, and the log of the kernel
    invocations made so far (function pointer and arguments). *)
Record machine : Type := Machine {
  data_pointers : list Z;
  strides : list stride_ptr;
  mem : World;
  calls : list (Z * kernel_args)
}.

(** [for j in range(n_ops): strides[j] += dim_level] *)
Definition offset_strides (n_ops dim_level : nat) (m : machine) : machine :=
  Machine (data_pointers m)
    (for_ops n_ops
       (λ _ sp, StridePtr (sp_vec sp) (sp_off sp + dim_level)) (strides m))
    (mem m) (calls m).

(** [for j in range(n_ops): strides[j] -= dim_level] *)
Definition reset_strides (n_ops dim_level : nat) (m : machine) : machine :=
  Machine (data_pointers m)
    (for_ops n_ops
       (λ _ sp, StridePtr (sp_vec sp) (sp_off sp - dim_level)) (strides m))
    (mem m) (calls m).

(** [for j in range(n_ops): data_pointers[j] += strides[j][dim_level]] *)
Definition advance_pointers (n_ops dim_level : nat) (m : machine)
    : machine :=
  Machine
    (for_ops n_ops
       (λ j p, ptr_add p
                 (default 0 ((λ sp, sp_read sp dim_level) <$> strides m !! j)))
       (data_pointers m))
    (strides m) (mem m) (calls m).

(** [for j in range(n_ops):
       data_pointers[j] -= shape[dim_level] * strides[j][dim_level]] *)
Definition rewind_pointers (n_ops dim_level : nat) (shape : list Z)
    (m : machine) : machine :=
  Machine
    (for_ops n_ops
       (λ j p, ptr_sub p
                 (intp_mul (shape_at shape dim_level)
                    (default 0
                       ((λ sp, sp_read sp dim_level) <$> strides m !! j))))
       (data_pointers m))
    (strides m) (mem m) (calls m).

(** The [ndim <= 2] branch of [run_higher_dimensional]. *)
Definition run_leaf (fp : Z) (shape : list Z) (n_ops dim_level : nat)
    (m : machine) : outcome () * machine :=
  let m1 :=
    if decide (dim_level = O) then m else offset_strides n_ops dim_level m in
  let args :=
    KernelArgs (drop dim_level shape) (data_pointers m1)
      (sp_view <$> strides m1) in
  let '(w, status) := call_minifunc fp args (mem m1) in
  let m2 :=
    Machine (data_pointers m1) (strides m1) w (calls m1 ++ [(fp, args)]) in
  match status with
  | Some err => (Raised (KernelError err), m2)
  | None =>
      (Returned (),
       if decide (dim_level = O) then m2
       else reset_strides n_ops dim_level m2)
  end.

(** [run_higher_dimensional].  [ndim] is the number of dimensions still to
    process (a C [int] that is never negative, hence a [nat]); with more
    than two of them the method loops over [range(shape[dim_level])], the
    loop variable being the [int] [i] of line 170 (unused in the body) and
    the extent an [npy_intp], and calls itself with [ndim - 1] and
    [dim_level + 1].  A negative extent would give no iteration.  There is
    no [try] in the method: an exception from a kernel leaves every
    enclosing loop without the statements after it. *)
Fixpoint run_higher_dimensional (fp : Z) (shape : list Z) (ndim n_ops
    dim_level : nat) (m : machine) {struct ndim} : outcome () * machine :=
  match ndim with
  | S (S (S _) as ndim1) =>
      let '(r, m1) :=
        for_int_range (shape_at shape dim_level)
          (λ mi,
             match
               run_higher_dimensional fp shape ndim1 n_ops (S dim_level) mi
             with
             | (Returned _, mi') =>
                 (Returned (), advance_pointers n_ops dim_level mi')
             | (Raised e, mi') => (Raised e, mi')
             | (Overflowed, mi') => (Overflowed, mi')
             end) m in
      match r with
      | Returned _ =>
          (Returned (), rewind_pointers n_ops dim_level shape m1)
      | Raised e => (Raised e, m1)
      | Overflowed => (Overflowed, m1)
      end
  | _ => run_leaf fp shape n_ops dim_level m
  end.

End Executor.

Arguments machine World : clear implicits.

(** ** The element addresses of a loop nest, computed from full indices *)

(** All index vectors over the given extents, in lexicographic order with
    the first dimension outermost. *)
Fixpoint index_space (extents : list Z) : list (list Z) :=
  match extents with
  | [] => [[]]
  | e :: es => seqZ 0 e ≫= λ i, (i ::.) <$> index_space es
  end.

(** Lexicographic order on index vectors of one length. *)
Fixpoint lex_lt (a b : list Z) : Prop :=
  match a, b with
  | i :: a', j :: b' => i < j ∨ (i = j ∧ lex_lt a' b')
  | _, _ => False
  end.

(** [sum_d idx[d] * sv[d]] over the dimensions that [idx] covers. *)
Definition index_offset (idx sv : list Z) : Z :=
  foldr Z.add 0 (zip_with Z.mul idx sv).

(** The arguments of the leaf invocation under the index vector [idx] of the
    enclosing dimensions [dim_level .. dim_level + length idx - 1]: operand
    [j] is addressed at its pointer plus the offset of [idx] under its
    strides, and shape and strides are passed from the first dimension that
    is not enclosing. *)
Definition leaf_args (shape : list Z) (dps : list Z) (svecs : list (list Z))
    (dim_level : nat) (idx : list Z) : kernel_args :=
  KernelArgs
    (drop (dim_level + length idx) shape)
    (zip_with (λ p sv, ptr_add p (index_offset idx (drop dim_level sv)))
       dps svecs)
    (drop (dim_level + length idx) <$> svecs).

(** The leaf invocations of a nest of [ndim] dimensions starting at
    [dim_level]: one per index vector of the [ndim - 2] enclosing
    dimensions. *)
Definition leaf_invocations (shape : list Z) (dps : list Z)
    (svecs : list (list Z)) (ndim dim_level : nat) : list kernel_args :=
  leaf_args shape dps svecs dim_level
    <$> index_space (take (ndim - 2) (drop dim_level shape)).

Section Reference.

Context {World : Type}.
Variable call_minifunc : Z → kernel_args → World → World * option string.

(** Calling the kernel on a list of arguments in order, stopping at the
    first call that fails: the memory afterwards, the calls made, and the
    failing call with its error if there was one. *)
Fixpoint invoke_all (fp : Z) (cs : list kernel_args) (w : World)
    : World * list kernel_args * option (kernel_args * string) :=
  match cs with
  | [] => (w, [], None)
  | c :: cs' =>
      match call_minifunc fp c w with
      | (w', Some err) => (w', [c], Some (c, err))
      | (w', None) =>
          let '(w'', made, r) := invoke_all fp cs' w' in
          (w'', c :: made, r)
      end
  end.

End Reference.

(** ** Arrays *)

Record dtype : Type := DType {
  dt_name : string;
  dt_itemsize : Z
}.

Global Instance dtype_eq_dec : EqDecision dtype.
Proof. solve_decision. Defined.

Global Instance dtype_countable : Countable dtype :=
  inj_countable' (λ d, (dt_name d, dt_itemsize d)) (λ p, DType p.1 p.2)
    (λ d, match d with DType _ _ => eq_refl end).

(** An [ndarray] as the dispatcher uses it: [dtype], [shape], [strides] (in
    bytes) and the address of its first element. *)
Record ndarray : Type := NDArray {
  arr_dtype : dtype;
  arr_shape : list Z;
  arr_strides : list Z;
  arr_data : Z
}.

Inductive order_arg : Type := OrderC | OrderF.

(** Row-major and column-major strides of a shape. *)
Fixpoint c_strides (itemsize : Z) (shape : list Z) : list Z :=
  match shape with
  | [] => []
  | _ :: rest => (itemsize * foldr Z.mul 1 rest) :: c_strides itemsize rest
  end.

Definition f_strides (itemsize : Z) (shape : list Z) : list Z :=
  reverse (c_strides itemsize (reverse shape)).

(** ** NumPy broadcasting *)

(** Modelled from the spec: the unified extent of one aligned dimension
    ([np.broadcast] is NumPy's; the design document, section 4.1, gives the
    rule).  The unified extent is the maximum among the extents that are not
    1, and two differing extents both greater than 1 are an error. *)
Definition unify_extent (x y : Z) : option Z :=
  if decide (x = 1) then Some y
  else if decide (y = 1) then Some x
  else if decide (1 < x ∧ 1 < y ∧ x ≠ y) then None
  else Some (Z.max x y).

(** Modelled from the spec: two shapes aligned at their trailing dimension,
    given here last dimension first; the shorter one is padded with extent
    1. *)
Fixpoint broadcast_rev (a b : list Z) : option (list Z) :=
  match a, b with
  | [], _ => Some b
  | _, [] => Some a
  | x :: a', y :: b' =>
      z ← unify_extent x y; r ← broadcast_rev a' b'; Some (z :: r)
  end.

Definition broadcast2 (a b : list Z) : option (list Z) :=
  reverse <$> broadcast_rev (reverse a) (reverse b).

(** Modelled from the spec: the shape of [np.broadcast] over the arrays,
    folded over the operands from the empty shape, or [None] when
    [np.broadcast] raises its [ValueError]. *)
Definition np_broadcast (shapes : list (list Z)) : option (list Z) :=
  foldl (λ acc s, acc ≫= λ u, broadcast2 u s) (Some []) shapes.

(** Modelled from the spec: the stride vector [broadcast_arrays] of
    miniutils.pyx (included by the module, not part of it) plans for one
    operand, last dimension first.  A dimension the operand does not have
    gets stride 0; a dimension it declares with extent 1 gets stride 0,
    whatever the unified extent (section 3 of the design document: an
    extent of 1 always pairs with stride 0 after planning); any other
    dimension keeps the operand's stride. *)
Fixpoint plan_strides_rev (u s t : list Z) : list Z :=
  match u with
  | [] => []
  | ue :: u' =>
      match s, t with
      | se :: s', te :: t' =>
          (if decide (se = 1) then 0 else te) :: plan_strides_rev u' s' t'
      | _, _ => 0 :: plan_strides_rev u' [] []
      end
  end.

Definition plan_strides (ushape : list Z) (a : ndarray) : list Z :=
  reverse
    (plan_strides_rev (reverse ushape) (reverse (arr_shape a))
       (reverse (arr_strides a))).

(** Modelled from the spec: [is_broadcasting] of miniutils.pyx: whether some
    operand has a broadcast dimension, that is, fewer dimensions than the
    unified shape or an extent 1 where the unified extent is greater. *)
Definition operand_broadcasts (ushape : list Z) (a : ndarray) : bool :=
  bool_decide (length (arr_shape a) < length ushape)%nat
  || existsb (λ p, bool_decide (p.1 = 1 ∧ 1 < p.2))
       (zip (reverse (arr_shape a)) (reverse ushape)).

Definition is_broadcasting (arrays : list ndarray) (ushape : list Z) : bool :=
  existsb (operand_broadcasts ushape) arrays.

(** ** The dispatcher *)

(** The value of [self.functions[key]] as far as the direct-call path reads
    it: the four function pointers (contiguous, inner contiguous, tiled,
    strided) and the result dtype.  The ctypes entries of the tuple are only
    unpacked. *)
Record kernel_bundle : Type := KernelBundle {
  contig_func : Z;
  inner_contig_func : Z;
  tiled_func : Z;
  strided_func : Z;
  result_dtype : dtype
}.

Record UFuncDispatcher : Type := MkUFuncDispatcher {
  functions : gmap (list dtype * nat) kernel_bundle;
  nin : nat
}.

Inductive pyobj : Type :=
  | PyNone
  | PyArray (a : ndarray).

(** The four strategies a bundle has a kernel for. *)
Inductive strategy : Type :=
  | FullyContiguous
  | InnerContiguous
  | Tiled
  | Strided.

Global Instance strategy_eq_dec : EqDecision strategy.
Proof. solve_decision. Defined.

(** [for i in range(3, ndim): shape_p[0] *= shape_p[i]] *)
Definition collapse_loop (ndim : nat) (shape_p : list Z) : list Z :=
  foldl (λ sh i, <[0%nat := intp_mul (shape_at sh 0) (shape_at sh i)]> sh)
    shape_p (seq 3 (ndim - 3)).

(** [if contig and ndim > 3: ...] *)
Definition collapse_shape (contig : bool) (ndim : nat) (shape_p : list Z)
    : list Z :=
  if contig && bool_decide (3 < ndim)%nat then collapse_loop ndim shape_p
  else shape_p.

Section Dispatcher.

Context {World : Type}.
Variable call_minifunc : Z → kernel_args → World → World * option string.

(** [_internal.get_arrays_ordering] and the flag constants of [_internal]
    are compiled C and are taken as they come. *)
Variable get_arrays_ordering : list ndarray → Z.
Variables ARRAY_C_ORDER ARRAYS_ARE_CONTIG ARRAYS_ARE_INNER_CONTIG : Z.
Variables ARRAYS_ARE_MIXED_CONTIG ARRAYS_ARE_MIXED_STRIDED : Z.

(** What a call can change: the memory of the arrays, the log of kernel
    invocations, the buffers [np.empty] has handed out with the next free
    address, and the number of live scratch arrays. *)
Record py_state : Type := PyState {
  py_mem : World;
  py_calls : list (Z * kernel_args);
  py_allocated : list ndarray;
  py_next : Z;
  py_scratch : nat
}.

(** Modelled from the spec: [np.empty(shape, dtype=, order=)], NumPy's
    allocation of a new buffer of the given shape, dtype and order. *)
Definition np_empty (shape : list Z) (dt : dtype) (order : order_arg)
    (st : py_state) : ndarray * py_state :=
  let a :=
    NDArray dt shape
      (match order with
       | OrderC => c_strides (dt_itemsize dt) shape
       | OrderF => f_strides (dt_itemsize dt) shape
       end)
      (py_next st) in
  (a,
   PyState (py_mem st) (py_calls st) (py_allocated st ++ [a])
     (py_next st + Z.max 1 (dt_itemsize dt * foldr Z.mul 1 shape))
     (py_scratch st)).

(** The arguments [run_ufunc] hands to [run_higher_dimensional]. *)
Record executor_args : Type := ExecutorArgs {
  ex_shape : list Z;
  ex_data_pointers : list Z;
  ex_strides : list stride_ptr;
  ex_ndim : nat;
  ex_n_ops : nat
}.

(** Modelled from the spec: [broadcast_arrays] of miniutils.pyx, which the
    module includes: the unified shape copied into a new [shape_p] and, in
    a new [strides_p], the planned stride vector of every array. *)
Definition broadcast_arrays (arrays : list ndarray) (bshape : list Z)
    (ndim : nat) : list Z * list (list Z) :=
  (bshape, plan_strides bshape <$> arrays).

(** Modelled from the spec: [build_dynamic_args] of miniutils.pyx: a new
    array of the data pointers of the arrays and a new array of stride
    pointers, one per array, at the head of its planned strides. *)
Definition build_dynamic_args (arrays : list ndarray)
    (strides_p : list (list Z)) (ndim : nat) : list Z * list stride_ptr :=
  (arr_data <$> arrays, (λ v, StridePtr v 0) <$> strides_p).

(** Lines 141 to 150 of [run_ufunc]: the output is put in front of the
    arrays, the scratch arrays are built, and the shape is collapsed when
    the contiguous kernel runs on more than three dimensions. *)
Definition prepare_executor (bshape : list Z) (ndim : nat) (out : ndarray)
    (arrays : list ndarray) (contig : bool) : executor_args :=
  let arrays := out :: arrays in
  let '(shape_p, strides_p) := broadcast_arrays arrays bshape ndim in
  let '(data_pointers, strides_args) :=
    build_dynamic_args arrays strides_p ndim in
  ExecutorArgs (collapse_shape contig ndim shape_p) data_pointers
    strides_args ndim (length arrays).

(** [run_ufunc]: the four scratch arrays are allocated, the executor runs,
    and the [finally] clause frees them on either exit.  The method has no
    [return] statement, so it returns [None].  An overflow of a loop
    counter of the executor is passed on as it is. *)
Definition run_ufunc (function_pointer : Z) (bshape : list Z) (ndim : nat)
    (out : ndarray) (arrays : list ndarray) (contig : bool) (st : py_state)
    : outcome pyobj * py_state :=
  let ex := prepare_executor bshape ndim out arrays contig in
  let m :=
    Machine (ex_data_pointers ex) (ex_strides ex) (py_mem st) (py_calls st) in
  let live := (py_scratch st + 4)%nat in
  let '(r, m') :=
    run_higher_dimensional call_minifunc function_pointer (ex_shape ex)
      (ex_ndim ex) (ex_n_ops ex) 0 m in
  let st' :=
    PyState (mem m') (calls m') (py_allocated st) (py_next st)
      (live - 4)%nat in
  match r with
  | Returned _ => (Returned PyNone, st')
  | Raised e => (Raised e, st')
  | Overflowed => (Overflowed, st')
  end.

(** Lines 106 to 109 of [__call__]. *)
Definition contig_flag (order : Z) (any_broadcasting : bool) : bool :=
  bool_decide (Z.land order ARRAYS_ARE_CONTIG ≠ 0) && negb any_broadcasting.

Definition inner_contig_flag (order : Z) : Z :=
  Z.land order ARRAYS_ARE_INNER_CONTIG.

Definition tiled_flag (order : Z) : Z :=
  Z.land order (Z.lor ARRAYS_ARE_MIXED_CONTIG ARRAYS_ARE_MIXED_STRIDED).

(** The branch of lines 116 to 127 that is taken. *)
Definition select_strategy (order : Z) (any_broadcasting : bool) : strategy :=
  if contig_flag order any_broadcasting then FullyContiguous
  else if decide (inner_contig_flag order ≠ 0) then InnerContiguous
  else if decide (tiled_flag order ≠ 0) then Tiled
  else Strided.

Definition strategy_func (b : kernel_bundle) (s : strategy) : Z :=
  match s with
  | FullyContiguous => contig_func b
  | InnerContiguous => inner_contig_func b
  | Tiled => tiled_func b
  | Strided => strided_func b
  end.

(** [UFuncDispatcher.__call__] on the positional [args] and the keyword
    [out]. *)
Definition UFuncDispatcher_call (self : UFuncDispatcher)
    (args : list ndarray) (out : option ndarray) (st : py_state)
    : outcome pyobj * py_state :=
  if decide (length args ≠ nin self) then
    (Raised (TypeError (nin self) (length args)), st)
  else
    let arg_types := arr_dtype <$> args in
    let order := get_arrays_ordering args in
    let broadcast_args := args ++ from_option (λ o, [o]) [] out in
    match np_broadcast (arr_shape <$> broadcast_args) with
    | None => (Raised ValueError_broadcast, st)
    | Some bshape =>
        let ndim := length bshape in
        match functions self !! (arg_types, ndim) with
        | None => (Raised (ValueError_no_signature (dt_name <$> arg_types)), st)
        | Some bundle =>
            let '(out, st1) :=
              match out with
              | None =>
                  let order_arg :=
                    if decide (Z.land order ARRAY_C_ORDER ≠ 0) then OrderC
                    else OrderF in
                  np_empty bshape (result_dtype bundle) order_arg st
              | Some o => (o, st)
              end in
            let any_broadcasting := is_broadcasting broadcast_args bshape in
            let contig := contig_flag order any_broadcasting in
            let function_pointer :=
              strategy_func bundle (select_strategy order any_broadcasting) in
            run_ufunc function_pointer bshape ndim out args contig st1
        end
    end.

End Dispatcher.

(** ** What the executor is expected to do *)

Section ExecutorContract.

Context {World : Type}.
Variable call_minifunc : Z → kernel_args → World → World * option string.

(** The scratch arrays as [run_ufunc] sets them up for a nest of [total]
    dimensions: one data pointer and one stride pointer per operand, the
    stride pointers at the start of vectors of [total] strides, addresses
    in the address space, extents not negative. *)
Definition exec_wf (shape : list Z) (n_ops total : nat)
    (m : machine World) : Prop :=
  length shape = total
  ∧ length (data_pointers m) = n_ops
  ∧ length (strides m) = n_ops
  ∧ Forall (λ sp, sp_off sp = 0%nat ∧ length (sp_vec sp) = total)
      (strides m)
  ∧ Forall in_ptr_range (data_pointers m)
  ∧ Forall (λ e, 0 ≤ e) shape.

(** The extents of the [ndim - 2] enclosing dimensions from [dim_level] on
    are within the range of the [int] loop counter. *)
Definition int_extents (shape : list Z) (dim_level ndim : nat) : Prop :=
  Forall (λ e, e ≤ int_max) (take (ndim - 2) (drop dim_level shape)).

(** The stride pointers as [run_ufunc] sets them up: one per operand, each
    at the head of its vector. *)
Definition strides_wf (n_ops : nat) (m : machine World) : Prop :=
  length (strides m) = n_ops ∧ Forall (λ sp, sp_off sp = 0%nat) (strides m).

(** What a run of the executor from [m] that ended with [r] in [m'] did
    with the kernel: [made] are the invocations it added to the log.
    Called one after the other from the memory on entry they leave the
    memory on exit, and none of them fails, unless the run raised: then the
    last of them is the one that failed, the run raised its error, and the
    data pointers and stride pointers are still the ones that invocation
    was handed. *)
Definition kernel_trace (fp : Z) (m : machine World) (r : outcome ())
    (m' : machine World) (made : list kernel_args) : Prop :=
  calls m' = calls m ++ ((fp,.) <$> made)
  ∧ match r with
    | Raised e =>
        ∃ c err,
          e = KernelError err
          ∧ invoke_all call_minifunc fp made (mem m)
            = (mem m', made, Some (c, err))
          ∧ last made = Some c
          ∧ data_pointers m' = k_data c
          ∧ sp_view <$> strides m' = k_strides c
    | _ => invoke_all call_minifunc fp made (mem m) = (mem m', made, None)
    end.

(** Operand pointers moved [i] steps along dimension [dim_level]. *)
Definition shifted (dps : list Z) (svecs : list (list Z)) (dim_level : nat)
    (i : Z) : list Z :=
  zip_with (λ p sv, ptr_add p (i * default 0 (sv !! dim_level))) dps svecs.

(** The outcome of the executor in terms of the leaf invocations computed
    from full indices.  When every kernel call returns, the scratch arrays
    are as on entry.  When a call fails, the data pointers are the ones
    that call was given and the stride pointers stand at the leaf's
    [dim_level]. *)
Definition executor_result (fp : Z) (shape : list Z) (ndim dim_level : nat)
    (m : machine World) : outcome () * machine World :=
  let '(w, made, r) :=
    invoke_all call_minifunc fp
      (leaf_invocations shape (data_pointers m) (sp_vec <$> strides m)
         ndim dim_level)
      (mem m) in
  let log := calls m ++ ((fp,.) <$> made) in
  match r with
  | None => (Returned (), Machine (data_pointers m) (strides m) w log)
  | Some (c, err) =>
      (Raised (KernelError err),
       Machine (k_data c)
         ((λ sp, StridePtr (sp_vec sp) (dim_level + (ndim - 2))) <$> strides m)
         w log)
  end.

End ExecutorContract.

(** ** NumPy's broadcasting rule, dimension by dimension *)

(** The extent of a shape in the [k]-th dimension counted from the last
    one; a shape is padded on the left with extent 1. *)
Definition extent_from_end (shape : list Z) (k : nat) : Z :=
  default 1 (reverse shape !! k).

(** Shapes are compatible when in every aligned dimension any two are equal
    or one of them is 1. *)
Definition broadcast_compatible (shapes : list (list Z)) : Prop :=
  ∀ a b k, a ∈ shapes → b ∈ shapes →
    extent_from_end a k = extent_from_end b k
    ∨ extent_from_end a k = 1 ∨ extent_from_end b k = 1.

(** The extent that is not 1 among the operands in an aligned dimension, or
    1 when all are 1. *)
Definition unified_extent (shapes : list (list Z)) (k : nat) : Z :=
  default 1
    (head (filter (λ e, e ≠ 1) ((λ s, extent_from_end s k) <$> shapes))).

(** The broadcast shape as NumPy documents it: as many dimensions as the
    longest shape, each the unified extent of its aligned dimension. *)
Definition numpy_broadcast_shape (shapes : list (list Z)) : list Z :=
  reverse
    (unified_extent shapes
       <$> seq 0 (foldr Nat.max 0%nat (length <$> shapes))).

(** ** Shapes of arrays that exist *)

(** The extents of an array are not negative and the number of its elements,
    counting an extent 0 as 1, fits [npy_intp]: NumPy refuses to create an
    array otherwise.  When the contiguous kernel is selected no operand is
    broadcast, so the unified shape is the shape of an operand that
    exists. *)
Definition padded_size (shape : list Z) : Z :=
  foldr (λ e acc, Z.max e 1 * acc) 1 shape.

Definition shape_fits (shape : list Z) : Prop :=
  Forall (λ e, 0 ≤ e) shape ∧ padded_size shape ≤ intp_max.

(** ** Memory shared by two arrays *)

(** The lowest address of an array and the address past its last byte. *)
Definition byte_span (a : ndarray) : Z * Z :=
  let offs := zip_with (λ e t, (e - 1) * t) (arr_shape a) (arr_strides a) in
  (arr_data a + foldr (λ o acc, Z.min o 0 + acc) 0 offs,
   arr_data a + foldr (λ o acc, Z.max o 0 + acc) 0 offs
     + dt_itemsize (arr_dtype a)).

Definition arrays_overlap (a b : ndarray) : Prop :=
  (byte_span a).1 < (byte_span b).2 ∧ (byte_span b).1 < (byte_span a).2.

(** ** A concrete dispatcher to run the model on *)

Definition float64 : dtype := DType "float64" 8.
Definition int32 : dtype := DType "int32" 4.

(** A kernel double over an empty memory that never fails; what it is
    called with is in the log of the machine. *)
Definition recording_kernel (fp : Z) (args : kernel_args) (w : unit)
    : unit * option string :=
  (w, None).

(** A kernel double that fails when it is handed the data pointers [bad]. *)
Definition failing_kernel (bad : list Z) (fp : Z) (args : kernel_args)
    (w : unit) : unit * option string :=
  (w, if decide (k_data args = bad) then Some "domain error"%string else None).

(** A kernel double over a memory that is the list of the output addresses
    written so far, the oldest first; it fails, after writing, at the
    address [bad]. *)
Definition storing_kernel (bad : Z) (fp : Z) (args : kernel_args)
    (w : list Z) : list Z * option string :=
  let p := default 0 (k_data args !! 0%nat) in
  (w ++ [p], if decide (p = bad) then Some "domain error"%string else None).

Definition MODEL_ARRAY_C_ORDER : Z := 1.
Definition MODEL_ARRAYS_ARE_CONTIG : Z := 2.
Definition MODEL_ARRAYS_ARE_INNER_CONTIG : Z := 4.
Definition MODEL_ARRAYS_ARE_MIXED_CONTIG : Z := 8.
Definition MODEL_ARRAYS_ARE_MIXED_STRIDED : Z := 16.

Definition is_c_contiguous (a : ndarray) : bool :=
  bool_decide
    (arr_strides a = c_strides (dt_itemsize (arr_dtype a)) (arr_shape a)).

Definition is_f_contiguous (a : ndarray) : bool :=
  bool_decide
    (arr_strides a = f_strides (dt_itemsize (arr_dtype a)) (arr_shape a)).

Definition is_inner_contiguous (a : ndarray) : bool :=
  bool_decide (last (arr_strides a) = Some (dt_itemsize (arr_dtype a))).

(** Modelled from the spec: [_internal.get_arrays_ordering] (compiled C that
    is not part of the module), after section 4.2 of the design document.
    The arrays are contiguous when the strides of every one are the
    row-major strides of its shape, or of every one the column-major
    strides; they are inner contiguous when the last stride of every one is
    the item size; C order is preferred unless they are all column-major.
    The values of the flags are arbitrary distinct bits. *)
Definition model_get_arrays_ordering (arrays : list ndarray) : Z :=
  if forallb is_c_contiguous arrays then
    Z.lor MODEL_ARRAYS_ARE_CONTIG MODEL_ARRAY_C_ORDER
  else if forallb is_f_contiguous arrays then MODEL_ARRAYS_ARE_CONTIG
  else if forallb is_inner_contiguous arrays then
    Z.lor MODEL_ARRAYS_ARE_INNER_CONTIG MODEL_ARRAY_C_ORDER
  else MODEL_ARRAY_C_ORDER.

(** A dispatcher with one input, registered for [float64] in one and two
    dimensions. *)
Definition model_bundle : kernel_bundle := KernelBundle 11 12 13 14 float64.

Definition model_dispatcher : UFuncDispatcher :=
  MkUFuncDispatcher
    (<[([float64], 1%nat) := model_bundle]>
       (<[([float64], 2%nat) := model_bundle]> ∅))
    1.

Definition model_call
    (kernel : Z → kernel_args → unit → unit * option string)
    (self : UFuncDispatcher) (args : list ndarray) (out : option ndarray)
    (st : py_state) : outcome pyobj * py_state :=
  UFuncDispatcher_call kernel model_get_arrays_ordering MODEL_ARRAY_C_ORDER
    MODEL_ARRAYS_ARE_CONTIG MODEL_ARRAYS_ARE_INNER_CONTIG
    MODEL_ARRAYS_ARE_MIXED_CONTIG MODEL_ARRAYS_ARE_MIXED_STRIDED
    self args out st.

Definition fresh_state : py_state (World := unit) := PyState () [] [] 65536 0.

(** ** The ctypes path

    [run_ufunc_ctypes] ("Unused") builds the argument list of a ctypes
    function and calls it. *)

(** What goes into [call_args]: the shape array built from
    [broadcast.shape], [array.ctypes.data_as(ctypes_type)], and a strides
    array, either [array.ctypes.strides] or one built for an operand of
    fewer dimensions. *)
Inductive cvalue : Type :=
  | CShape (extents : list Z)
  | CData (address : Z) (ctypes_type : string)
  | CStrides (strides : list Z)
  | CPadded (ctypes_type : string) (nd : nat) (items : list Z).

Inductive ctypes_error : Type :=
  | IndexError
  | CtypesError (err : string).

Inductive ctypes_outcome (A : Type) : Type :=
  | CReturned (a : A)
  | CRaised (e : ctypes_error).
Arguments CReturned {A} a.
Arguments CRaised {A} e.

Section CtypesPath.

(** The memory the foreign function works on and the log of the argument
    lists it has been called with. *)
Context {World : Type}.

Record ctypes_state : Type := CtypesState {
  ct_mem : World;
  ct_calls : list (list cvalue)
}.

(** What ctypes does with [(ctypes_type * nd)(items)], the array built for
    an operand of fewer dimensions: the array, or the error it raises.
    ctypes is not part of the module and is taken as it comes. *)
Variable make_array : string → nat → list Z → string + cvalue.

(** The inner function [add_arg]: the data pointer is appended, then the
    strides.  An operand with [broadcast.nd] dimensions passes its own
    strides; any other gets [leading_dims * (0,) + array.strides], where a
    negative [leading_dims] gives no zero. *)
Definition add_arg (nd : nat) (array : ndarray) (ctypes_type : string)
    (call_args : list cvalue) : ctypes_outcome (list cvalue) :=
  let call_args := call_args ++ [CData (arr_data array) ctypes_type] in
  if decide (length (arr_shape array) = nd) then
    CReturned (call_args ++ [CStrides (arr_strides array)])
  else
    let leading_dims := (nd - length (arr_shape array))%nat in
    match
      make_array ctypes_type nd (replicate leading_dims 0 ++ arr_strides array)
    with
    | inl err => CRaised (CtypesError err)
    | inr strides => CReturned (call_args ++ [strides])
    end.

(** [for numpy_array, ctypes_arg_type in zip(args, ctypes_arg_types):
       add_arg(numpy_array, ctypes_arg_type)] *)
Fixpoint add_args (nd : nat) (pairs : list (ndarray * string))
    (call_args : list cvalue) : ctypes_outcome (list cvalue) :=
  match pairs with
  | [] => CReturned call_args
  | (numpy_array, ctypes_arg_type) :: rest =>
      match add_arg nd numpy_array ctypes_arg_type call_args with
      | CReturned call_args' => add_args nd rest call_args'
      | CRaised e => CRaised e
      end
  end.

(** [run_ufunc_ctypes].  [args[0]] raises [IndexError] on no operand;
    [broadcast] is given by its shape, [broadcast.nd] being its length; the
    foreign function either returns (its result is dropped) or raises. *)
Definition run_ufunc_ctypes
    (ctypes_func : list cvalue → World → World * option string)
    (bshape : list Z) (ctypes_ret_type : string)
    (ctypes_arg_types : list string) (out : ndarray) (args : list ndarray)
    (st : ctypes_state) : ctypes_outcome ndarray * ctypes_state :=
  match args with
  | [] => (CRaised IndexError, st)
  | _ :: _ =>
      let nd := length bshape in
      let call_args := [CShape bshape] in
      match add_arg nd out ctypes_ret_type call_args with
      | CRaised e => (CRaised e, st)
      | CReturned call_args =>
          match add_args nd (zip args ctypes_arg_types) call_args with
          | CRaised e => (CRaised e, st)
          | CReturned call_args =>
              let '(w, r) := ctypes_func call_args (ct_mem st) in
              let st' := CtypesState w (ct_calls st ++ [call_args]) in
              match r with
              | Some err => (CRaised (CtypesError err), st')
              | None => (CReturned out, st')
              end
          end
      end
  end.

End CtypesPath.

(** Doubles for the ctypes path: a foreign function over an empty memory
    that never fails, and a ctypes that builds the padded strides array. *)
Definition foreign_double (call_args : list cvalue) (w : unit)
    : unit * option string :=
  (w, None).

Definition padded_array (ctypes_type : string) (nd : nat) (items : list Z)
    : string + cvalue :=
  inr (CPadded ctypes_type nd items).

(** * Properties *)

(** ** Pointer and integer arithmetic *)

Lemma ptr_modulus_pos : 0 < ptr_modulus.
Proof. reflexivity. Qed.

Lemma wrap_ptr_range a : in_ptr_range (wrap_ptr a).
Proof. apply Z.mod_pos_bound, ptr_modulus_pos. Qed.

Lemma wrap_ptr_small p : in_ptr_range p → wrap_ptr p = p.
Proof. intros Hp. apply Z.mod_small, Hp. Qed.

Lemma ptr_add_range p s : in_ptr_range (ptr_add p s).
Proof. apply wrap_ptr_range. Qed.

Lemma ptr_add_0 p : in_ptr_range p → ptr_add p 0 = p.
Proof.
  intros Hp. unfold ptr_add. rewrite Z.add_0_r. by apply wrap_ptr_small.
Qed.

Lemma ptr_add_add p a b : ptr_add (ptr_add p a) b = ptr_add p (a + b).
Proof.
  unfold ptr_add, wrap_ptr.
  rewrite Zplus_mod_idemp_l. f_equal. lia.
Qed.

Lemma wrap_intp_congr a : wrap_ptr (wrap_intp a) = wrap_ptr a.
Proof.
  unfold wrap_intp, wrap_ptr.
  rewrite Zminus_mod_idemp_l. f_equal. lia.
Qed.

Lemma wrap_intp_small a : - 2 ^ 63 ≤ a ≤ intp_max → wrap_intp a = a.
Proof.
  unfold wrap_intp, intp_max, ptr_modulus. intros Ha.
  rewrite Z.mod_small; lia.
Qed.

Lemma ptr_sub_intp p a : ptr_sub p (wrap_intp a) = ptr_sub p a.
Proof.
  unfold ptr_sub, wrap_ptr.
  rewrite <- (Zminus_mod_idemp_r p (wrap_intp a)).
  rewrite <- (Zminus_mod_idemp_r p a).
  f_equal. f_equal. apply wrap_intp_congr.
Qed.

Lemma ptr_rewind p e s :
  in_ptr_range p → ptr_sub (ptr_add p (e * s)) (intp_mul e s) = p.
Proof.
  intros Hp. unfold intp_mul. rewrite ptr_sub_intp.
  unfold ptr_sub, ptr_add, wrap_ptr.
  rewrite Zminus_mod_idemp_l.
  replace (p + e * s - e * s) with p by lia.
  by apply wrap_ptr_small.
Qed.

(** ** Loops with an [int] counter *)

Lemma int_max_pos : 0 < int_max.
Proof. reflexivity. Qed.

(** The loop as the bounded number of iterations and the check that ends
    it. *)
Lemma for_int_range_eq {St : Type} (n : Z) (body : St → outcome () * St)
    (s : St) :
  for_int_range n body s
  = (match (for_range (Z.to_nat (Z.min n (int_max + 1))) body s).1 with
     | Returned _ =>
         if decide (n ≤ int_max) then Returned () else Overflowed
     | Raised e => Raised e
     | Overflowed => Overflowed
     end,
     (for_range (Z.to_nat (Z.min n (int_max + 1))) body s).2).
Proof.
  unfold for_int_range.
  destruct (for_range _ body s) as [[u|e|] s']; simpl; [|done..].
  by case_decide.
Qed.

(** Within the range of the counter the loop runs [n] times. *)
Lemma for_int_range_bounded {St : Type} (n : Z)
    (body : St → outcome () * St) (s : St) :
  n ≤ int_max → for_int_range n body s = for_range (Z.to_nat n) body s.
Proof.
  intros Hn. unfold for_int_range.
  rewrite Z.min_l by lia.
  destruct (for_range _ body s) as [[[]|e|] s']; [|done..].
  by rewrite decide_True.
Qed.

(** ** Loops over the operands *)

Lemma for_ops_prefix {A} (f : nat → A → A) (l : list A) (n : nat) :
  (n ≤ length l)%nat → for_ops n f l = imap f (take n l) ++ drop n l.
Proof.
  unfold for_ops. induction n as [|n IH]; intros Hn.
  - by rewrite take_0, drop_0.
  - rewrite seq_S, foldl_app, IH by lia. simpl.
    destruct (lookup_lt_is_Some_2 l n) as [x Hx]; [lia|].
    rewrite (take_S_r _ _ _ Hx), (drop_S _ _ _ Hx), imap_app.
    rewrite <- app_assoc. simpl.
    assert (Hlen : length (imap f (take n l)) = n)
      by (rewrite length_imap, length_take_le; lia).
    rewrite alter_app_r_alt by lia.
    rewrite Hlen, Nat.sub_diag. simpl.
    rewrite length_take_le by lia. by rewrite Nat.add_0_r.
Qed.

Lemma for_ops_all {A} (f : nat → A → A) (l : list A) :
  for_ops (length l) f l = imap f l.
Proof.
  rewrite for_ops_prefix by lia.
  by rewrite firstn_all, drop_all, app_nil_r.
Qed.

Lemma for_ops_const {A} (g : A → A) (l : list A) (n : nat) :
  n = length l → for_ops n (λ _, g) l = g <$> l.
Proof. intros ->. rewrite for_ops_all. apply imap_const. Qed.

Lemma for_ops_read {A B} (g : A → Z → A) (r : B → Z) (l : list A)
    (k : list B) (n : nat) :
  n = length l → length k = length l →
  for_ops n (λ j x, g x (default 0 (r <$> k !! j))) l
  = zip_with (λ x y, g x (r y)) l k.
Proof.
  intros -> Hk. rewrite for_ops_all.
  apply list_eq. intros i.
  rewrite list_lookup_imap, lookup_zip_with.
  destruct (l !! i) as [x|] eqn:Hx; simpl; [|done].
  destruct (lookup_lt_is_Some_2 k i) as [y Hy].
  { apply lookup_lt_Some in Hx. lia. }
  by rewrite Hy.
Qed.

Lemma fmap_id_on {A} (f : A → A) (P : A → Prop) (l : list A) :
  Forall P l → (∀ x, P x → f x = x) → f <$> l = l.
Proof.
  intros Hl Hf. induction Hl as [|x l Hx Hl IH]; csimpl; [done|].
  by rewrite Hf, IH.
Qed.

Lemma zip_with_nest {A B} (f g : A → B → A) (l : list A) (k : list B) :
  zip_with g (zip_with f l k) k = zip_with (λ x y, g (f x y) y) l k.
Proof.
  revert k. induction l as [|x l IH]; intros [|y k]; simpl; [done..|].
  by rewrite IH.
Qed.

Lemma zip_with_fst_id {A B} (f : A → B → A) (P : A → Prop) (Q : B → Prop)
    (l : list A) (k : list B) :
  length k = length l → Forall P l → Forall Q k →
  (∀ x y, P x → Q y → f x y = x) →
  zip_with f l k = l.
Proof.
  intros Hlen Hl Hk Hf. revert k Hlen Hk.
  induction Hl as [|x l Hx Hl IH]; intros [|y k] Hlen Hk; simplify_eq/=;
    [done|].
  apply Forall_cons in Hk as [Hy Hk]. by rewrite Hf, IH by done.
Qed.

(** ** Index vectors *)

Lemma index_space_elem (extents idx : list Z) :
  idx ∈ index_space extents ↔ Forall2 (λ i e, 0 ≤ i < e) idx extents.
Proof.
  revert idx. induction extents as [|e es IH]; intros idx; simpl.
  - rewrite list_elem_of_singleton. split; [by intros ->|].
    by intros ->%Forall2_nil_inv_r.
  - rewrite list_elem_of_bind. split.
    + intros (i & Hidx & Hi). apply list_elem_of_fmap in Hidx as (tl & -> & Htl).
      apply elem_of_seqZ in Hi. constructor; [lia|by apply IH].
    + intros H. inversion H as [|i e' tl es' Hi Htl]; subst.
      exists i. split; [|apply elem_of_seqZ; lia].
      apply list_elem_of_fmap. exists tl. split; [done|by apply IH].
Qed.

Lemma seqZ_sorted (m : Z) (n : nat) : StronglySorted Z.lt (seqZ m (Z.of_nat n)).
Proof.
  revert m. induction n as [|n IH]; intros m.
  - rewrite seqZ_nil by lia. constructor.
  - rewrite seqZ_cons by lia.
    replace (Z.pred (Z.of_nat (S n))) with (Z.of_nat n) by lia.
    constructor; [apply IH|].
    apply Forall_forall. intros k Hk. apply elem_of_seqZ in Hk. lia.
Qed.

Lemma lex_lt_cons_sorted (i : Z) (l : list (list Z)) :
  StronglySorted lex_lt l → StronglySorted lex_lt ((i ::.) <$> l).
Proof.
  induction 1 as [|a l Hl IH Ha]; csimpl; constructor; [done|].
  apply Forall_fmap. eapply Forall_impl; [exact Ha|].
  intros b Hab. simpl. by right.
Qed.

(** The index vectors come in strictly increasing lexicographic order, so
    each occurs once. *)
Lemma index_space_sorted (extents : list Z) :
  StronglySorted lex_lt (index_space extents).
Proof.
  induction extents as [|e es IH]; simpl.
  - repeat constructor.
  - assert (Hs : StronglySorted Z.lt (seqZ 0 e)).
    { destruct (decide (0 ≤ e)) as [He|He].
      - rewrite <- (Z2Nat.id e) by done. apply seqZ_sorted.
      - rewrite seqZ_nil by lia. constructor. }
    induction Hs as [|i l Hl IHl Hi]; csimpl; [constructor|].
    apply StronglySorted_app_2; [|by apply lex_lt_cons_sorted|done].
    intros a b Ha Hb.
    apply list_elem_of_fmap in Ha as (a' & -> & _).
    apply list_elem_of_bind in Hb as (j & Hb & Hj).
    apply list_elem_of_fmap in Hb as (b' & -> & _).
    rewrite Forall_forall in Hi. simpl. left. by apply Hi.
Qed.

Lemma index_space_length (extents : list Z) :
  Forall (λ e, 0 ≤ e) extents →
  Z.of_nat (length (index_space extents)) = foldr Z.mul 1 extents.
Proof.
  induction 1 as [|e es He Hes IH]; simpl; [done|].
  rewrite <- IH. generalize (index_space es) as rest. intros rest.
  assert (Hlen : ∀ l : list Z,
    length (l ≫= λ i, (i ::.) <$> rest) = (length l * length rest)%nat).
  { induction l as [|i l IHl]; csimpl; [done|].
    by rewrite length_app, length_fmap, IHl. }
  rewrite Hlen, length_seqZ. lia.
Qed.

(** ** The recursive executor *)

Lemma index_offset_cons i idx sv d :
  index_offset (i :: idx) (drop d sv)
  = i * default 0 (sv !! d) + index_offset idx (drop (S d) sv).
Proof.
  unfold index_offset.
  destruct (sv !! d) as [s|] eqn:Hs.
  - by rewrite (drop_S _ _ _ Hs).
  - apply lookup_ge_None in Hs.
    rewrite !drop_ge by lia. rewrite zip_with_nil_r. simpl.
    destruct idx; simpl; lia.
Qed.

Lemma leaf_args_cons shape dps svecs d i idx :
  leaf_args shape dps svecs d (i :: idx)
  = leaf_args shape (shifted dps svecs d i) svecs (S d) idx.
Proof.
  unfold leaf_args, shifted. simpl.
  rewrite zip_with_nest.
  replace (d + S (length idx))%nat with (S (d + length idx)) by lia.
  f_equal. apply zip_with_ext; [|done..].
  intros p sv. by rewrite ptr_add_add, index_offset_cons.
Qed.

Lemma leaf_invocations_step shape dps svecs k d e :
  shape !! d = Some e →
  leaf_invocations shape dps svecs (S (S (S k))) d
  = seqZ 0 e ≫= λ i, leaf_invocations shape (shifted dps svecs d i) svecs
                        (S (S k)) (S d).
Proof.
  intros He. unfold leaf_invocations. simpl.
  rewrite (drop_S _ _ _ He). simpl.
  rewrite Nat.sub_0_r.
  generalize (index_space (take k (drop (S d) shape))) as rest. intros rest.
  induction (seqZ 0 e) as [|i tl IH]; [done|].
  rewrite !bind_cons, fmap_app, IH. f_equal.
  rewrite <- list_fmap_compose. apply list_fmap_ext.
  intros ? idx _. simpl. apply leaf_args_cons.
Qed.

Lemma leaf_invocations_base shape dps svecs n d :
  (n ≤ 2)%nat → length svecs = length dps → Forall in_ptr_range dps →
  leaf_invocations shape dps svecs n d
  = [KernelArgs (drop d shape) dps (drop d <$> svecs)].
Proof.
  intros Hn Hlen Hdps. unfold leaf_invocations.
  replace (n - 2)%nat with 0%nat by lia. rewrite take_0. simpl.
  unfold leaf_args. simpl. rewrite Nat.add_0_r.
  f_equal. f_equal.
  apply (zip_with_fst_id _ in_ptr_range (λ _, True));
    [done | done | by apply Forall_true |].
  intros p sv Hp _. unfold index_offset. simpl. by apply ptr_add_0.
Qed.

Section ExecutorProofs.

Context {World : Type}.
Variable call_minifunc : Z → kernel_args → World → World * option string.

Abbreviation invoke := (invoke_all call_minifunc).
Abbreviation run_hd := (run_higher_dimensional call_minifunc).
Abbreviation exec_result := (executor_result call_minifunc).

(** The body of the loop at [dim_level = d] of a nest of [k + 3]
    dimensions. *)
Abbreviation level_body fp shape k n_ops d :=
  (λ mi : machine World,
     match run_hd fp shape (S (S k)) n_ops (S d) mi with
     | (Returned _, mi') => (Returned (), advance_pointers n_ops d mi')
     | (Raised e, mi') => (Raised e, mi')
     | (Overflowed, mi') => (Overflowed, mi')
     end).

(** The recursive branch, one level unfolded. *)
Lemma run_higher_dimensional_step fp shape k n_ops d (m : machine World) :
  run_hd fp shape (S (S (S k))) n_ops d m
  = let '(r, m1) :=
      for_int_range (shape_at shape d) (level_body fp shape k n_ops d) m in
    match r with
    | Returned _ => (Returned (), rewind_pointers n_ops d shape m1)
    | Raised e => (Raised e, m1)
    | Overflowed => (Overflowed, m1)
    end.
Proof. reflexivity. Qed.

Lemma invoke_all_app fp l1 l2 (w : World) :
  invoke fp (l1 ++ l2) w
  = let '(w1, made1, r1) := invoke fp l1 w in
    match r1 with
    | Some _ => (w1, made1, r1)
    | None =>
        let '(w2, made2, r2) := invoke fp l2 w1 in
        (w2, made1 ++ made2, r2)
    end.
Proof.
  revert w. induction l1 as [|c l1 IH]; intros w; simpl.
  - by destruct (invoke fp l2 w) as [[??]?].
  - destruct (call_minifunc fp c w) as [w' [err|]]; [done|].
    rewrite IH. destruct (invoke fp l1 w') as [[w1 made1] [?|]]; [done|].
    by destruct (invoke fp l2 w1) as [[??]?].
Qed.

(** Without failure every call of the list is made. *)
Lemma invoke_all_complete fp cs (w w' : World) made :
  invoke fp cs w = (w', made, None) → made = cs.
Proof.
  revert w w' made. induction cs as [|c cs IH]; intros w w' made; simpl.
  - congruence.
  - destruct (call_minifunc fp c w) as [w1 [err|]]; [congruence|].
    destruct (invoke fp cs w1) as [[w2 made2] r] eqn:Hrec.
    intros [= <- <- ->]. f_equal. eauto.
Qed.

(** The calls made are an initial segment of the list, and a failing call
    is the last one made. *)
Lemma invoke_all_prefix fp cs (w w' : World) made r :
  invoke fp cs w = (w', made, r) →
  made = take (length made) cs
  ∧ ∀ c err, r = Some (c, err) → last made = Some c.
Proof.
  revert w w' made r. induction cs as [|c cs IH]; intros w w' made r; simpl.
  - intros [= <- <- <-]. done.
  - destruct (call_minifunc fp c w) as [w1 [err|]].
    + intros [= <- <- <-]. split; [done|]. by intros ?? [= <- <-].
    + destruct (invoke fp cs w1) as [[w2 made2] r2] eqn:Hrec.
      intros [= <- <- <-]. destruct (IH _ _ _ _ Hrec) as [Hpre Hlast].
      split; [simpl; by f_equal|].
      intros c' err Hr. specialize (Hlast _ _ Hr).
      destruct made2; [done|]. done.
Qed.

Lemma run_leaf_result fp shape n_ops n d (m : machine World) :
  (n ≤ 2)%nat → exec_wf shape n_ops (d + n) m →
  run_leaf call_minifunc fp shape n_ops d m = exec_result fp shape n d m.
Proof.
  intros Hn (Hshape & Hdps & Hstr & Hsp & Hrange & _).
  unfold run_leaf, executor_result.
  rewrite leaf_invocations_base
    by (rewrite ?length_fmap; first [lia | done]).
  assert (Hoff0 : Forall (λ sp, sp_off sp = 0%nat) (strides m)).
  { eapply Forall_impl; [exact Hsp|]. by intros ? [??]. }
  replace (n - 2)%nat with 0%nat by lia. rewrite Nat.add_0_r.
  destruct (decide (d = 0%nat)) as [->|Hd]; simpl.
  - assert (Hv0 : sp_view <$> strides m = drop 0 <$> (sp_vec <$> strides m)).
    { rewrite <- list_fmap_compose. apply Forall_fmap_ext_1.
      eapply Forall_impl; [exact Hoff0|].
      intros [v o] Ho. simpl in *. unfold sp_view. simpl. by rewrite Ho. }
    rewrite Hv0.
    destruct (call_minifunc fp _ (mem m)) as [w [err|]]; simpl; [|done].
    do 2 f_equal. symmetry. apply (fmap_id_on _ _ _ Hoff0).
    intros [v o] Ho. simpl in *. by rewrite Ho.
  - unfold offset_strides. simpl.
    rewrite for_ops_const by done.
    assert (Hview :
      sp_view <$> ((λ sp, StridePtr (sp_vec sp) (sp_off sp + d)) <$> strides m)
      = drop d <$> (sp_vec <$> strides m)).
    { rewrite <- !list_fmap_compose. apply Forall_fmap_ext_1.
      eapply Forall_impl; [exact Hoff0|].
      intros [v o] Ho. simpl in *. unfold sp_view. simpl. by rewrite Ho. }
    rewrite Hview.
    destruct (call_minifunc fp _ (mem m)) as [w [err|]]; simpl.
    + do 2 f_equal. apply Forall_fmap_ext_1.
      eapply Forall_impl; [exact Hoff0|].
      intros [v o] Ho. simpl in *. by rewrite Ho.
    + unfold reset_strides. simpl.
      rewrite for_ops_const by (by rewrite length_fmap).
      do 2 f_equal. rewrite <- list_fmap_compose.
      apply (fmap_id_on _ _ _ Hoff0).
      intros [v o] Ho. simpl in *. rewrite Ho. f_equal. lia.
Qed.

Lemma shifted_range dps svecs d i : Forall in_ptr_range (shifted dps svecs d i).
Proof.
  unfold shifted. apply Forall_lookup. intros j x Hx.
  apply lookup_zip_with_Some in Hx as (p & sv & -> & _ & _).
  apply ptr_add_range.
Qed.

Lemma shifted_0 dps svecs d :
  length svecs = length dps → Forall in_ptr_range dps →
  shifted dps svecs d 0 = dps.
Proof.
  intros Hlen Hdps. unfold shifted.
  apply (zip_with_fst_id _ in_ptr_range (λ _, True));
    [done | done | by apply Forall_true |].
  intros p sv Hp _. rewrite Z.mul_0_l. by apply ptr_add_0.
Qed.

Lemma advance_pointers_shifted n_ops d dps strs i (w : World) log :
  length dps = n_ops → length strs = n_ops →
  Forall (λ sp, sp_off sp = 0%nat) strs →
  advance_pointers n_ops d (Machine (shifted dps (sp_vec <$> strs) d i) strs w log)
  = Machine (shifted dps (sp_vec <$> strs) d (i + 1)) strs w log.
Proof.
  intros Hdps Hstrs Hoff. unfold advance_pointers. simpl. f_equal.
  rewrite (for_ops_read ptr_add)
    by (unfold shifted; rewrite length_zip_with, ?length_fmap; lia).
  unfold shifted. rewrite !zip_with_fmap_r, zip_with_nest.
  apply Forall_zip_with_ext_r; [done|].
  eapply Forall_impl; [exact Hoff|].
  intros [v o] Ho p. simpl in *. unfold sp_read. simpl. rewrite Ho. simpl.
  rewrite ptr_add_add. f_equal. lia.
Qed.

Lemma rewind_pointers_shifted n_ops d shape dps strs (w : World) log :
  length dps = n_ops → length strs = n_ops →
  Forall (λ sp, sp_off sp = 0%nat) strs → Forall in_ptr_range dps →
  rewind_pointers n_ops d shape
    (Machine (shifted dps (sp_vec <$> strs) d (shape_at shape d)) strs w log)
  = Machine dps strs w log.
Proof.
  intros Hdps Hstrs Hoff Hrange. unfold rewind_pointers. simpl. f_equal.
  rewrite (for_ops_read (λ p s, ptr_sub p (intp_mul (shape_at shape d) s)))
    by (unfold shifted; rewrite length_zip_with, ?length_fmap; lia).
  unfold shifted. rewrite !zip_with_fmap_r, zip_with_nest.
  apply (zip_with_fst_id _ in_ptr_range (λ sp, sp_off sp = 0%nat));
    [lia | done | done |].
  intros p [v o] Hp Ho. simpl in *. unfold sp_read. simpl. rewrite Ho. simpl.
  by apply ptr_rewind.
Qed.

Lemma exec_wf_shifted shape n_ops total (m : machine World) d i
    (w : World) log :
  exec_wf shape n_ops total m →
  exec_wf shape n_ops total
    (Machine (shifted (data_pointers m) (sp_vec <$> strides m) d i)
       (strides m) w log).
Proof.
  intros (Hshape & Hdps & Hstr & Hsp & Hrange & Hnn).
  repeat split; simpl; try done.
  - unfold shifted. rewrite length_zip_with, length_fmap. lia.
  - apply shifted_range.
Qed.

(** The loop of the recursive branch, started at index [i0] with the
    pointers [i0] steps along dimension [d]. *)
Lemma executor_loop fp shape n_ops k d (m0 : machine World) :
  (∀ m, exec_wf shape n_ops (S d + S (S k)) m →
        run_hd fp shape (S (S k)) n_ops (S d) m
        = exec_result fp shape (S (S k)) (S d) m) →
  exec_wf shape n_ops (d + S (S (S k))) m0 →
  ∀ (c : nat) (i0 : Z) (w : World) log,
    for_range c (level_body fp shape k n_ops d)
      (Machine (shifted (data_pointers m0) (sp_vec <$> strides m0) d i0)
         (strides m0) w log)
    = let '(w', made, r) :=
        invoke fp
          (seqZ i0 (Z.of_nat c) ≫= λ i,
             leaf_invocations shape
               (shifted (data_pointers m0) (sp_vec <$> strides m0) d i)
               (sp_vec <$> strides m0) (S (S k)) (S d))
          w in
      let log' := log ++ ((fp,.) <$> made) in
      match r with
      | None =>
          (Returned (),
           Machine
             (shifted (data_pointers m0) (sp_vec <$> strides m0) d
                (i0 + Z.of_nat c))
             (strides m0) w' log')
      | Some (cl, err) =>
          (Raised (KernelError err),
           Machine (k_data cl)
             ((λ sp, StridePtr (sp_vec sp) (d + S k)) <$> strides m0) w' log')
      end.
Proof.
  intros IH Hwf. pose proof Hwf as (Hshape & Hdps & Hstr & Hsp & Hrange & Hnn).
  assert (Hoff0 : Forall (λ sp, sp_off sp = 0%nat) (strides m0)).
  { eapply Forall_impl; [exact Hsp|]. by intros ? [??]. }
  induction c as [|c IHc]; intros i0 w log.
  - simpl. rewrite Z.add_0_r, app_nil_r. done.
  - rewrite seqZ_cons by lia.
    replace (Z.pred (Z.of_nat (S c))) with (Z.of_nat c) by lia.
    rewrite bind_cons, invoke_all_app. cbn [for_range].
    rewrite IH.
    2:{ replace (S d + S (S k))%nat with (d + S (S (S k)))%nat by lia.
        by apply exec_wf_shifted. }
    unfold executor_result at 1. simpl.
    destruct (invoke fp _ w) as [[w1 made1] [[cl err]|]].
    + do 2 f_equal. apply list_fmap_ext. intros _ [v o] _. simpl.
      f_equal. lia.
    + rewrite advance_pointers_shifted by done.
      replace (i0 + 1) with (Z.succ i0) by lia.
      rewrite IHc.
      destruct (invoke fp _ w1) as [[w2 made2] [[cl err]|]].
      * by rewrite fmap_app, app_assoc.
      * rewrite fmap_app, app_assoc. do 3 f_equal. lia.
Qed.

Lemma int_extents_step shape d k e :
  shape !! d = Some e → int_extents shape d (S (S (S k))) →
  e ≤ int_max ∧ int_extents shape (S d) (S (S k)).
Proof.
  unfold int_extents. intros He. simpl.
  rewrite (drop_S _ _ _ He), Nat.sub_0_r. simpl.
  by intros [??]%Forall_cons.
Qed.

(** Where the extents of the enclosing dimensions are within the range of
    the loop counter, the executor does what the full-index computation
    says. *)
Lemma run_higher_dimensional_result fp shape n_ops n :
  ∀ d (m : machine World),
    exec_wf shape n_ops (d + n) m → int_extents shape d n →
    run_hd fp shape n n_ops d m
    = exec_result fp shape n d m.
Proof.
  induction n as [|n IH]; intros d m Hwf Hint.
  - by apply run_leaf_result; [lia|].
  - destruct n as [|[|k]]; [by apply run_leaf_result; [lia|]..|].
    pose proof Hwf as (Hshape & Hdps & Hstr & Hsp & Hrange & Hnn).
    assert (Hoff0 : Forall (λ sp, sp_off sp = 0%nat) (strides m)).
    { eapply Forall_impl; [exact Hsp|]. by intros ? [??]. }
    destruct (lookup_lt_is_Some_2 shape d) as [e He]; [lia|].
    assert (0 ≤ e) as Hge.
    { rewrite Forall_lookup in Hnn. by eapply Hnn. }
    destruct (int_extents_step _ _ _ _ He Hint) as [Hle Hint'].
    rewrite run_higher_dimensional_step.
    rewrite for_int_range_bounded by (unfold shape_at; by rewrite He).
    pose proof (executor_loop fp shape n_ops k d m) as Hloop.
    specialize (Hloop (λ m' Hm', IH (S d) m' Hm' Hint') Hwf
      (Z.to_nat (shape_at shape d)) 0 (mem m) (calls m)).
    rewrite shifted_0 in Hloop by (rewrite ?length_fmap; first [lia|done]).
    destruct m as [dps strs w log]. simpl in *.
    rewrite Hloop. clear Hloop.
    unfold executor_result. simpl.
    rewrite (leaf_invocations_step _ _ _ _ _ _ He).
    unfold shape_at. rewrite He. simpl. rewrite Z2Nat.id by done.
    destruct (invoke fp _ w) as [[w1 made1] [[cl err]|]].
    + done.
    + rewrite Z.add_0_l.
      pose proof (rewind_pointers_shifted n_ops d shape dps strs w1
                    (log ++ ((fp,.) <$> made1))) as Hrew.
      unfold shape_at in Hrew. rewrite He in Hrew. simpl in Hrew.
      by rewrite Hrew.
Qed.

(** *** What holds of every run *)

Lemma run_leaf_unfold fp shape n_ops d (m : machine World) :
  strides_wf n_ops m →
  run_leaf call_minifunc fp shape n_ops d m
  = let c :=
      KernelArgs (drop d shape) (data_pointers m)
        (drop d <$> (sp_vec <$> strides m)) in
    (match (call_minifunc fp c (mem m)).2 with
     | Some err => Raised (KernelError err)
     | None => Returned ()
     end,
     Machine (data_pointers m)
       (match (call_minifunc fp c (mem m)).2 with
        | Some _ => (λ sp, StridePtr (sp_vec sp) d) <$> strides m
        | None => strides m
        end)
       (call_minifunc fp c (mem m)).1 (calls m ++ [(fp, c)])).
Proof.
  intros [Hlen Hoff0]. unfold run_leaf. cbv zeta.
  assert (Hid : (λ sp, StridePtr (sp_vec sp) 0) <$> strides m = strides m).
  { apply (fmap_id_on _ _ _ Hoff0). intros [v o] Ho. simpl in *. by rewrite Ho. }
  destruct (decide (d = 0%nat)) as [->|Hd].
  - assert (Hv0 : sp_view <$> strides m = drop 0 <$> (sp_vec <$> strides m)).
    { rewrite <- list_fmap_compose. apply Forall_fmap_ext_1.
      eapply Forall_impl; [exact Hoff0|].
      intros [v o] Ho. simpl in *. unfold sp_view. simpl. by rewrite Ho. }
    rewrite Hv0.
    destruct (call_minifunc fp _ (mem m)) as [w [err|]]; simpl; [|done].
    by rewrite Hid.
  - unfold offset_strides. cbn [data_pointers strides mem calls].
    rewrite for_ops_const by done.
    assert (Hview :
      sp_view <$> ((λ sp, StridePtr (sp_vec sp) (sp_off sp + d)) <$> strides m)
      = drop d <$> (sp_vec <$> strides m)).
    { rewrite <- !list_fmap_compose. apply Forall_fmap_ext_1.
      eapply Forall_impl; [exact Hoff0|].
      intros [v o] Ho. simpl in *. unfold sp_view. simpl. by rewrite Ho. }
    rewrite Hview.
    destruct (call_minifunc fp _ (mem m)) as [w [err|]]; simpl.
    + do 2 f_equal. apply Forall_fmap_ext_1.
      eapply Forall_impl; [exact Hoff0|].
      intros [v o] Ho. simpl in *. by rewrite Ho.
    + unfold reset_strides. cbn [data_pointers strides mem calls].
      rewrite for_ops_const by (by rewrite length_fmap).
      do 2 f_equal. rewrite <- list_fmap_compose.
      apply (fmap_id_on _ _ _ Hoff0).
      intros [v o] Ho. simpl in *. rewrite Ho. f_equal. lia.
Qed.

(** The stride pointers after a run, and the shape and strides every
    invocation of the run was handed: those of the two innermost
    dimensions. *)
Lemma executor_strides fp shape n_ops n :
  ∀ d (m : machine World) r m',
    strides_wf n_ops m →
    run_hd fp shape n n_ops d m = (r, m') →
    strides m'
    = match r with
      | Raised _ => (λ sp, StridePtr (sp_vec sp) (d + (n - 2))) <$> strides m
      | _ => strides m
      end
    ∧ ∃ made,
        calls m' = calls m ++ ((fp,.) <$> made)
        ∧ Forall (λ c, k_shape c = drop (d + (n - 2)) shape
                       ∧ k_strides c
                         = drop (d + (n - 2)) <$> (sp_vec <$> strides m))
            made.
Proof.
  assert (Hleaf : ∀ n d (m : machine World) r m',
    (n ≤ 2)%nat → strides_wf n_ops m →
    run_leaf call_minifunc fp shape n_ops d m = (r, m') →
    strides m'
    = match r with
      | Raised _ => (λ sp, StridePtr (sp_vec sp) (d + (n - 2))) <$> strides m
      | _ => strides m
      end
    ∧ ∃ made,
        calls m' = calls m ++ ((fp,.) <$> made)
        ∧ Forall (λ c, k_shape c = drop (d + (n - 2)) shape
                       ∧ k_strides c
                         = drop (d + (n - 2)) <$> (sp_vec <$> strides m))
            made).
  { intros n0 d m r m' Hn Hwf. rewrite run_leaf_unfold by done. cbv zeta.
    replace (d + (n0 - 2))%nat with d by lia.
    destruct (call_minifunc fp _ (mem m)) as [w [err|]]; simpl;
      intros [= <- <-]; simpl; (split; [done|]); eexists [_];
      (split; [done|]); by repeat constructor. }
  induction n as [|n IH]; intros d m r m' Hwf; [apply Hleaf; [lia|done]|].
  destruct n as [|[|k]]; [apply Hleaf; [lia|done]..|].
  rewrite run_higher_dimensional_step, for_int_range_eq.
  replace (d + (S (S (S k)) - 2))%nat with (S d + (S (S k) - 2))%nat by lia.
  assert (Hloop : ∀ c (mi : machine World) r1 m1,
    strides mi = strides m →
    for_range c (level_body fp shape k n_ops d) mi = (r1, m1) →
    strides m1
    = match r1 with
      | Raised _ =>
          (λ sp, StridePtr (sp_vec sp) (S d + (S (S k) - 2))) <$> strides m
      | _ => strides m
      end
    ∧ ∃ made,
        calls m1 = calls mi ++ ((fp,.) <$> made)
        ∧ Forall (λ c, k_shape c = drop (S d + (S (S k) - 2)) shape
                       ∧ k_strides c
                         = drop (S d + (S (S k) - 2))
                             <$> (sp_vec <$> strides m))
            made).
  { induction c as [|c IHc]; intros mi r1 m1 Hs.
    - intros [= <- <-]. split; [done|]. exists []. by rewrite app_nil_r.
    - cbn [for_range].
      assert (Hwfi : strides_wf n_ops mi) by (unfold strides_wf; by rewrite Hs).
      destruct (run_hd fp shape (S (S k)) n_ops (S d) mi) as [[u|e|] m2]
        eqn:Hrec; apply (IH _ _ _ _ Hwfi) in Hrec as [Hs2 (made1 & Hc1 & Hf1)];
        rewrite Hs in Hs2, Hf1.
      + intros Hrest.
        apply IHc in Hrest as [Hs3 (made2 & Hc2 & Hf2)]; [|done].
        split; [done|]. exists (made1 ++ made2). split.
        * rewrite Hc2. simpl. by rewrite Hc1, fmap_app, app_assoc.
        * by apply Forall_app.
      + intros [= <- <-]. split; [done|]. by exists made1.
      + intros [= <- <-]. split; [done|]. by exists made1. }
  destruct (for_range _ _ m) as [r1 m1] eqn:Hfor.
  apply Hloop in Hfor as [Hs1 Hmade]; [|done]. simpl.
  destruct r1 as [u|e|].
  - case_decide; by intros [= <- <-].
  - by intros [= <- <-].
  - by intros [= <- <-].
Qed.

Lemma exec_wf_strides shape n_ops total (m : machine World) :
  exec_wf shape n_ops total m → strides_wf n_ops m.
Proof.
  intros (_ & _ & Hstr & Hsp & _). split; [done|].
  eapply Forall_impl; [exact Hsp|]. by intros ? [??].
Qed.

(** When a run returns, the data pointers and the stride pointers are as
    they were on entry. *)
Lemma executor_restores fp shape n_ops n :
  ∀ d (m : machine World) m',
    exec_wf shape n_ops (d + n) m →
    run_hd fp shape n n_ops d m = (Returned (), m') →
    data_pointers m' = data_pointers m ∧ strides m' = strides m.
Proof.
  assert (Hleaf : ∀ n0 d (m : machine World) m',
    (n0 ≤ 2)%nat → exec_wf shape n_ops (d + n0) m →
    run_leaf call_minifunc fp shape n_ops d m = (Returned (), m') →
    data_pointers m' = data_pointers m ∧ strides m' = strides m).
  { intros n0 d m m' Hn Hwf.
    rewrite (run_leaf_result fp shape n_ops n0) by done.
    unfold executor_result.
    destruct (invoke _ _ _) as [[w made] [[c err]|]]; [done|].
    by intros [= <-]. }
  induction n as [|n IH]; intros d m m' Hwf;
    [apply (Hleaf 0%nat); [lia|done]|].
  destruct n as [|[|k]];
    [apply (Hleaf 1%nat); [lia|done]|apply (Hleaf 2%nat); [lia|done]|].
  intros Hrun.
  pose proof (executor_strides fp shape n_ops _ _ _ _ _
                (exec_wf_strides _ _ _ _ Hwf) Hrun) as [Hs _].
  split; [|done]. clear Hs.
  pose proof Hwf as (Hshape & Hdps & Hstr & Hsp & Hrange & Hnn).
  assert (Hoff0 : Forall (λ sp, sp_off sp = 0%nat) (strides m)).
  { eapply Forall_impl; [exact Hsp|]. by intros ? [??]. }
  destruct (lookup_lt_is_Some_2 shape d) as [e He]; [lia|].
  assert (0 ≤ e) as Hge.
  { rewrite Forall_lookup in Hnn. by eapply Hnn. }
  rewrite run_higher_dimensional_step, for_int_range_eq in Hrun.
  assert (Hloop : ∀ c i0 (w : World) log m1,
    for_range c (level_body fp shape k n_ops d)
      (Machine (shifted (data_pointers m) (sp_vec <$> strides m) d i0)
         (strides m) w log)
    = (Returned (), m1) →
    data_pointers m1
    = shifted (data_pointers m) (sp_vec <$> strides m) d (i0 + Z.of_nat c)
    ∧ strides m1 = strides m).
  { induction c as [|c IHc]; intros i0 w log m1.
    - intros [= <-]. simpl. by rewrite Z.add_0_r.
    - cbn [for_range].
      pose proof (exec_wf_shifted shape n_ops _ m d i0 w log Hwf) as Hwfi.
      replace (d + S (S (S k)))%nat with (S d + S (S k))%nat in Hwfi by lia.
      destruct (run_hd fp shape (S (S k)) n_ops (S d) _) as [[[]|e1|] m2]
        eqn:Hrec; [|done..].
      pose proof (executor_strides fp shape n_ops _ _ _ _ _
                    (exec_wf_strides _ _ _ _ Hwfi) Hrec) as [Hs2 _].
      apply (IH _ _ _ Hwfi) in Hrec as [Hd2 _].
      destruct m2 as [dps2 strs2 w2 log2]. simpl in Hd2, Hs2. subst dps2 strs2.
      rewrite advance_pointers_shifted by done.
      intros Hrest. apply IHc in Hrest as [-> ->]. split; [|done].
      f_equal. lia. }
  destruct (for_range _ _ m) as [r1 m1] eqn:Hfor. simpl in Hrun.
  destruct r1 as [[]|e1|]; [|done..].
  case_decide as Hle; [|done]. injection Hrun as <-.
  pose proof (shifted_0 (data_pointers m) (sp_vec <$> strides m) d) as Hs0.
  rewrite length_fmap in Hs0. specialize (Hs0 ltac:(lia) Hrange).
  destruct m as [dps strs w log]. cbn [data_pointers strides mem calls] in *.
  specialize (Hloop (Z.to_nat (Z.min (shape_at shape d) (int_max + 1))) 0
                w log m1).
  rewrite Hs0 in Hloop. apply Hloop in Hfor as [Hd1 Hs1]. clear Hloop.
  destruct m1 as [dps1 strs1 w1 log1].
  cbn [data_pointers strides] in Hd1, Hs1. subst dps1 strs1.
  rewrite Z.min_l, Z2Nat.id, Z.add_0_l
    by (unfold shape_at in *; rewrite He in *; simpl in *; lia).
  by rewrite rewind_pointers_shifted.
Qed.

(** *** The kernel calls of a run, in order *)

Lemma kernel_trace_app fp (m m1 m1' : machine World) r m' made1 made2 :
  kernel_trace call_minifunc fp m (Returned ()) m1 made1 →
  calls m1' = calls m1 → mem m1' = mem m1 →
  kernel_trace call_minifunc fp m1' r m' made2 →
  kernel_trace call_minifunc fp m r m' (made1 ++ made2).
Proof.
  intros [Hc1 Hi1] Hcalls Hmem [Hc2 Hi2]. split.
  - by rewrite Hc2, Hcalls, Hc1, fmap_app, app_assoc.
  - rewrite Hmem in Hi2. destruct r as [u|e|].
    + by rewrite invoke_all_app, Hi1, Hi2.
    + destruct Hi2 as (c & err & -> & Hi2 & Hlast & Hd & Hs).
      exists c, err. split; [done|].
      split; [by rewrite invoke_all_app, Hi1, Hi2|].
      split; [|done]. by rewrite last_app, Hlast.
    + by rewrite invoke_all_app, Hi1, Hi2.
Qed.

Lemma kernel_trace_quiet fp (m m1 m1' : machine World) r r' made :
  kernel_trace call_minifunc fp m r m1 made →
  (∀ e, r ≠ Raised e) → (∀ e, r' ≠ Raised e) →
  calls m1' = calls m1 → mem m1' = mem m1 →
  kernel_trace call_minifunc fp m r' m1' made.
Proof.
  intros [Hc Hi] Hr Hr' Hcalls Hmem. split; [by rewrite Hcalls|].
  rewrite Hmem.
  destruct r as [u|e|]; [|by exfalso; eapply Hr|];
    (destruct r' as [u'|e'|]; [done|by exfalso; eapply Hr'|done]).
Qed.

(** Every run has such a trace. *)
Lemma executor_trace fp shape n_ops n :
  ∀ d (m : machine World) r m',
    run_hd fp shape n n_ops d m = (r, m') →
    ∃ made, kernel_trace call_minifunc fp m r m' made.
Proof.
  assert (Hleaf : ∀ d (m : machine World) r m',
    run_leaf call_minifunc fp shape n_ops d m = (r, m') →
    ∃ made, kernel_trace call_minifunc fp m r m' made).
  { intros d m r m'. unfold run_leaf. cbv zeta.
    set (m1 := if decide (d = 0%nat) then m else offset_strides n_ops d m).
    assert (Hm1 : mem m1 = mem m ∧ calls m1 = calls m)
      by (subst m1; by case_decide).
    destruct Hm1 as [Hmem Hcalls]. clearbody m1.
    set (args := KernelArgs (drop d shape) (data_pointers m1)
                   (sp_view <$> strides m1)).
    destruct (call_minifunc fp args (mem m1)) as [w [err|]] eqn:Hcall.
    - intros [= <- <-]. exists [args]. split; simpl; [by rewrite Hcalls|].
      exists args, err. by rewrite <- Hmem, Hcall.
    - intros [= <- <-]. exists [args]. split.
      + case_decide; simpl; by rewrite Hcalls.
      + simpl. rewrite <- Hmem, Hcall. by case_decide. }
  induction n as [|n IH]; intros d m r m'; [apply Hleaf|].
  destruct n as [|[|k]]; [apply Hleaf..|].
  rewrite run_higher_dimensional_step, for_int_range_eq.
  assert (Hloop : ∀ c (mi : machine World) r1 m1,
    for_range c (level_body fp shape k n_ops d) mi = (r1, m1) →
    ∃ made, kernel_trace call_minifunc fp mi r1 m1 made).
  { induction c as [|c IHc]; intros mi r1 m1.
    - intros [= <- <-]. exists []. split; [by rewrite app_nil_r|done].
    - cbn [for_range].
      destruct (run_hd fp shape (S (S k)) n_ops (S d) mi) as [[[]|e|] m2]
        eqn:Hrec; apply IH in Hrec as [made1 H1].
      + intros Hrest. apply IHc in Hrest as [made2 H2].
        exists (made1 ++ made2). by eapply kernel_trace_app.
      + intros [= <- <-]. by exists made1.
      + intros [= <- <-]. by exists made1. }
  destruct (for_range _ _ m) as [r1 m1] eqn:Hfor.
  apply Hloop in Hfor as [made Hmade]. simpl.
  destruct r1 as [u|e|].
  - case_decide; intros [= <- <-]; exists made;
      by eapply kernel_trace_quiet.
  - intros [= <- <-]. by exists made.
  - intros [= <- <-]. by exists made.
Qed.

(** *** The first kernel call of a run *)

Lemma executor_appends fp shape n_ops n d (m : machine World) :
  ∃ made,
    calls (run_hd fp shape n n_ops d m).2 = calls m ++ ((fp,.) <$> made).
Proof.
  destruct (run_hd fp shape n n_ops d m) as [r m'] eqn:Hrun.
  apply executor_trace in Hrun as (made & Hc & _). by exists made.
Qed.

Lemma executor_loop_appends fp shape k n_ops d (c : nat) :
  ∀ mi : machine World,
    ∃ made,
      calls (for_range c (level_body fp shape k n_ops d) mi).2
      = calls mi ++ ((fp,.) <$> made).
Proof.
  induction c as [|c IHc]; intros mi; [exists []; by rewrite app_nil_r|].
  cbn [for_range].
  destruct (executor_appends fp shape n_ops (S (S k)) (S d) mi) as [made1 H1].
  destruct (run_hd fp shape (S (S k)) n_ops (S d) mi) as [[u|e|] m1];
    cbn [snd] in *; [|by exists made1..].
  destruct (IHc (advance_pointers n_ops d m1)) as [made2 H2].
  exists (made1 ++ made2). rewrite H2. cbn [advance_pointers calls].
  by rewrite H1, fmap_app, app_assoc.
Qed.

Lemma executor_loop_silent fp shape k n_ops d :
  (∀ mi : machine World,
     calls (run_hd fp shape (S (S k)) n_ops (S d) mi).2 = calls mi) →
  ∀ (c : nat) (mi : machine World),
    calls (for_range c (level_body fp shape k n_ops d) mi).2 = calls mi.
Proof.
  intros Hs. induction c as [|c IHc]; intros mi; [done|].
  cbn [for_range]. specialize (Hs mi).
  destruct (run_hd fp shape (S (S k)) n_ops (S d) mi) as [[u|e|] m1];
    cbn [snd] in *; [|done..].
  by rewrite IHc.
Qed.

Lemma executor_calls_step fp shape k n_ops d (m : machine World) :
  calls (run_hd fp shape (S (S (S k))) n_ops d m).2
  = calls
      (for_range (Z.to_nat (Z.min (shape_at shape d) (int_max + 1)))
         (level_body fp shape k n_ops d) m).2.
Proof.
  rewrite run_higher_dimensional_step, for_int_range_eq.
  destruct (for_range _ _ m) as [[u|e|] m1]; cbn [fst snd]; [|done..].
  by case_decide.
Qed.

Lemma run_leaf_calls fp shape n_ops d (m : machine World) :
  ∃ c, calls (run_leaf call_minifunc fp shape n_ops d m).2
       = calls m ++ [(fp, c)]
       ∧ k_data c = data_pointers m.
Proof.
  unfold run_leaf. cbv zeta.
  set (m1 := if decide (d = 0%nat) then m else offset_strides n_ops d m).
  assert (Hm1 : data_pointers m1 = data_pointers m ∧ calls m1 = calls m)
    by (subst m1; by case_decide).
  destruct Hm1 as [Hdps Hcalls]. clearbody m1.
  eexists (KernelArgs _ (data_pointers m1) _).
  split; [|exact Hdps].
  destruct (call_minifunc fp _ (mem m1)) as [w [err|]]; cbn [snd].
  - cbn [calls]. by rewrite Hcalls.
  - case_decide; cbn [reset_strides calls]; by rewrite Hcalls.
Qed.

Lemma app_eq_self {A} (l k : list A) : l ++ k = l → k = [].
Proof.
  intros H. apply (app_inv_head l). by rewrite app_nil_r.
Qed.

(** Whether a run makes a kernel call at all depends on the shape only. *)
Lemma executor_silence fp shape n_ops n :
  ∀ d (m1 m2 : machine World),
    calls (run_hd fp shape n n_ops d m1).2 = calls m1 →
    calls (run_hd fp shape n n_ops d m2).2 = calls m2.
Proof.
  assert (Hleaf : ∀ d (m1 m2 : machine World),
    calls (run_leaf call_minifunc fp shape n_ops d m1).2 = calls m1 →
    calls (run_leaf call_minifunc fp shape n_ops d m2).2 = calls m2).
  { intros d m1 m2 H.
    destruct (run_leaf_calls fp shape n_ops d m1) as (c & Hc & _).
    rewrite Hc in H. by apply app_eq_self in H. }
  induction n as [|n IH]; intros d m1 m2; [apply Hleaf|].
  destruct n as [|[|k]]; [apply Hleaf..|].
  rewrite !executor_calls_step.
  destruct (Z.to_nat (Z.min (shape_at shape d) (int_max + 1))) as [|c];
    [done|].
  intros H. apply executor_loop_silent. intros mi. apply (IH (S d) m1).
  cbn [for_range] in H.
  destruct (executor_appends fp shape n_ops (S (S k)) (S d) m1) as [made1 H1].
  destruct (run_hd fp shape (S (S k)) n_ops (S d) m1) as [[u|e|] m1a];
    cbn [snd] in *; [|done..].
  destruct (executor_loop_appends fp shape k n_ops d c
              (advance_pointers n_ops d m1a)) as [made2 H2].
  rewrite H2 in H. cbn [advance_pointers calls] in H.
  rewrite H1, <- app_assoc in H. apply app_eq_self in H.
  apply app_eq_nil in H as [Hm1 _]. by rewrite H1, Hm1, app_nil_r.
Qed.

(** The first kernel call a run makes is handed the data pointers the run
    was entered with. *)
Lemma executor_first_call fp shape n_ops n :
  ∀ d (m : machine World) made c,
    calls (run_hd fp shape n n_ops d m).2 = calls m ++ ((fp,.) <$> made) →
    head made = Some c →
    k_data c = data_pointers m.
Proof.
  assert (Hleaf : ∀ d (m : machine World) made c,
    calls (run_leaf call_minifunc fp shape n_ops d m).2
    = calls m ++ ((fp,.) <$> made) →
    head made = Some c →
    k_data c = data_pointers m).
  { intros d m made c H Hhead.
    destruct (run_leaf_calls fp shape n_ops d m) as (c0 & Hc & Hd).
    rewrite Hc in H. apply app_inv_head in H.
    destruct made as [|c1 made]; [done|]. simplify_eq/=. done. }
  induction n as [|n IH]; intros d m made c; [apply Hleaf|].
  destruct n as [|[|k]]; [apply Hleaf..|].
  rewrite executor_calls_step.
  destruct (Z.to_nat (Z.min (shape_at shape d) (int_max + 1))) as [|cnt].
  { cbn [for_range snd]. intros H Hhead. symmetry in H.
    apply app_eq_self in H. by destruct made. }
  intros H Hhead.
  destruct (executor_appends fp shape n_ops (S (S k)) (S d) m) as [made1 H1].
  destruct made1 as [|c1 made1].
  - rewrite app_nil_r in H1.
    pose proof (executor_loop_silent fp shape k n_ops d
                  (λ mi, executor_silence fp shape n_ops _ (S d) m mi H1)
                  (S cnt) m) as Hs.
    rewrite Hs in H. symmetry in H. apply app_eq_self in H.
    by destruct made.
  - pose proof (IH (S d) m (c1 :: made1) c1 H1 eq_refl) as Hd.
    cbn [for_range] in H.
    destruct (run_hd fp shape (S (S k)) n_ops (S d) m) as [[u|e|] m1];
      cbn [snd] in *.
    + destruct (executor_loop_appends fp shape k n_ops d cnt
                  (advance_pointers n_ops d m1)) as [made2 H2].
      rewrite H2 in H. cbn [advance_pointers calls] in H.
      rewrite H1, <- app_assoc in H. apply app_inv_head in H.
      destruct made as [|c0 made]; [done|]. simplify_eq/=. done.
    + rewrite H1 in H. apply app_inv_head in H.
      destruct made as [|c0 made]; [done|]. simplify_eq/=. done.
    + rewrite H1 in H. apply app_inv_head in H.
      destruct made as [|c0 made]; [done|]. simplify_eq/=. done.
Qed.

Lemma invoke_all_no_failure fp cs (w : World) :
  (∀ c w0, (call_minifunc fp c w0).2 = None) →
  (invoke fp cs w).2 = None ∧ (invoke fp cs w).1.2 = cs.
Proof.
  intros Hok. revert w. induction cs as [|c cs IH]; intros w; simpl; [done|].
  specialize (Hok c w) as Hc.
  destruct (call_minifunc fp c w) as [w1 [err|]]; simpl in Hc; [done|].
  specialize (IH w1). destruct (invoke fp cs w1) as [[w2 made] r].
  simpl in *. destruct IH as [-> ->]. done.
Qed.

Lemma start_strides_vec (svecs : list (list Z)) :
  sp_vec <$> ((λ v, StridePtr v 0) <$> svecs) = svecs.
Proof. rewrite <- list_fmap_compose. apply list_fmap_id. Qed.

Lemma exec_wf_start shape ndim dps svecs (w : World) log :
  length shape = ndim → length svecs = length dps →
  Forall (λ sv, length sv = ndim) svecs →
  Forall in_ptr_range dps → Forall (λ e, 0 ≤ e) shape →
  exec_wf shape (length dps) (0 + ndim)
    (Machine dps ((λ v, StridePtr v 0) <$> svecs) w log).
Proof.
  intros Hshape Hlen Hsv Hrange Hnn. repeat split; simpl; try done.
  - by rewrite length_fmap.
  - apply Forall_fmap. eapply Forall_impl; [exact Hsv|]. by intros v Hv.
Qed.

(** An enclosing extent above [INT_MAX]: with a kernel that does not fail
    and the extents of the dimensions inside it within the range of the
    counter, the loop of that dimension makes the invocations of its first
    [2^31] indices and its counter overflows. *)
Lemma executor_counter_overflows fp shape n_ops k d (m : machine World) :
  exec_wf shape n_ops (d + S (S (S k))) m →
  int_extents shape (S d) (S (S k)) →
  int_max < shape_at shape d →
  (∀ c w0, (call_minifunc fp c w0).2 = None) →
  (run_hd fp shape (S (S (S k))) n_ops d m).1 = Overflowed
  ∧ calls (run_hd fp shape (S (S (S k))) n_ops d m).2
    = calls m
      ++ ((fp,.)
            <$> (seqZ 0 (int_max + 1) ≫= λ i,
                   leaf_invocations shape
                     (shifted (data_pointers m) (sp_vec <$> strides m) d i)
                     (sp_vec <$> strides m) (S (S k)) (S d))).
Proof.
  intros Hwf Hint Hbig Hok.
  pose proof Hwf as (Hshape & Hdps & Hstr & Hsp & Hrange & Hnn).
  rewrite run_higher_dimensional_step, for_int_range_eq.
  rewrite Z.min_r by lia.
  pose proof (executor_loop fp shape n_ops k d m) as Hloop.
  specialize (Hloop
    (λ m' Hm', run_higher_dimensional_result fp shape n_ops _ (S d) m' Hm'
                 Hint)
    Hwf (Z.to_nat (int_max + 1)) 0 (mem m) (calls m)).
  rewrite shifted_0 in Hloop by (rewrite ?length_fmap; first [lia|done]).
  rewrite Z2Nat.id in Hloop by (pose proof int_max_pos; lia).
  destruct m as [dps strs w log]. cbn [data_pointers strides mem calls] in *.
  rewrite Hloop. clear Hloop.
  destruct (invoke_all_no_failure fp
    (seqZ 0 (int_max + 1) ≫= λ i,
       leaf_invocations shape (shifted dps (sp_vec <$> strs) d i)
         (sp_vec <$> strs) (S (S k)) (S d)) w Hok) as [Hr Hmade].
  destruct (invoke fp _ w) as [[w' made] r].
  cbn [fst snd] in Hr, Hmade. subst r made.
  cbn [fst snd calls]. by rewrite decide_False by lia.
Qed.

(** X20.  Started as [run_ufunc] starts it ([dim_level] 0, every stride
    pointer at the head of its operand's vector) on a shape of [ndim]
    extents whose enclosing extents are within the range of the [int] loop
    counter, the executor invokes the kernel as follows.  The [k]-th
    invocation made is the one of the [k]-th index vector, in
    lexicographic order with dimension 0 outermost, over the [ndim - 2]
    enclosing dimensions, and the data pointer it passes for each operand
    is the operand's original pointer plus the sum over the enclosing
    dimensions of index times stride.  When the kernel does not fail, the
    executor returns and has made exactly one invocation per index
    vector.  The index vectors are all the vectors within the extents, in
    strictly increasing lexicographic order, so none occurs twice. *)
Theorem leaf_addresses_fully_indexed fp shape ndim dps svecs (w : World) :
  length shape = ndim → length svecs = length dps →
  Forall (λ sv, length sv = ndim) svecs →
  Forall in_ptr_range dps → Forall (λ e, 0 ≤ e) shape →
  Forall (λ e, e ≤ int_max) (take (ndim - 2) shape) →
  let res :=
    run_hd fp shape ndim (length dps) 0
      (Machine dps ((λ v, StridePtr v 0) <$> svecs) w []) in
  let outer := index_space (take (ndim - 2) shape) in
  (∀ (k : nat) entry,
     calls res.2 !! k = Some entry →
     ∃ idx,
       outer !! k = Some idx
       ∧ entry.1 = fp
       ∧ k_data entry.2
         = zip_with (λ p sv, ptr_add p (index_offset idx sv)) dps svecs)
  ∧ ((∀ c w0, (call_minifunc fp c w0).2 = None) →
     res.1 = Returned () ∧ length (calls res.2) = length outer)
  ∧ StronglySorted lex_lt outer
  ∧ (∀ idx, idx ∈ outer
            ↔ Forall2 (λ i e, 0 ≤ i < e) idx (take (ndim - 2) shape)).
Proof.
  intros Hshape Hlen Hsv Hrange Hnn Hint res outer.
  apply and_assoc.
  split; [|split; [apply index_space_sorted|apply index_space_elem]].
  assert (Hres : res = exec_result fp shape ndim 0
                   (Machine dps ((λ v, StridePtr v 0) <$> svecs) w [])).
  { apply run_higher_dimensional_result; [by apply exec_wf_start|done]. }
  clearbody res. subst res. unfold executor_result. simpl.
  rewrite start_strides_vec.
  pose proof (invoke_all_no_failure fp
    (leaf_invocations shape dps svecs ndim 0) w) as Hok.
  destruct (invoke fp (leaf_invocations shape dps svecs ndim 0) w)
    as [[w' made] r] eqn:Hinv.
  apply invoke_all_prefix in Hinv as [Hpre _].
  assert (Hlog : ∀ (k : nat) entry,
    ((fp,.) <$> made) !! k = Some entry →
    ∃ idx, outer !! k = Some idx ∧ entry.1 = fp
      ∧ k_data entry.2
        = zip_with (λ p sv, ptr_add p (index_offset idx sv)) dps svecs).
  { intros k entry Hk. rewrite list_lookup_fmap in Hk.
    destruct (made !! k) as [c|] eqn:Hc; simplify_eq/=.
    rewrite Hpre in Hc. apply lookup_take_Some in Hc as [Hc _].
    unfold leaf_invocations in Hc. rewrite list_lookup_fmap in Hc.
    change (drop 0 shape) with shape in Hc. fold outer in Hc.
    destruct (outer !! k) as [idx|]; simplify_eq/=.
    by exists idx. }
  split.
  - destruct r as [[c err]|]; simpl; exact Hlog.
  - intros Hnofail. destruct (Hok Hnofail) as [Hr Hmade]. simpl in *.
    subst r made. simpl. split; [done|].
    unfold leaf_invocations. by rewrite !length_fmap.
Qed.

End ExecutorProofs.

(** ** The dimension-collapsing step *)

Lemma padded_size_pos shape : 1 ≤ padded_size shape.
Proof. induction shape as [|e shape IH]; simpl; [done|nia]. Qed.

Lemma intp_product_exact (a : Z) (l : list Z) :
  0 ≤ a → Forall (λ e, 0 ≤ e) l → a * padded_size l ≤ intp_max →
  foldl intp_mul a l = a * foldr Z.mul 1 l
  ∧ 0 ≤ a * foldr Z.mul 1 l ≤ intp_max.
Proof.
  intros Ha Hl. revert a Ha. induction Hl as [|e l He Hl IH]; intros a Ha Hfit.
  - simpl in *. lia.
  - simpl in *. pose proof (padded_size_pos l) as Hpos.
    assert (a * e * padded_size l ≤ intp_max) as Hstep.
    { etrans; [|exact Hfit]. rewrite Z.mul_assoc.
      apply Z.mul_le_mono_nonneg_r; [lia|].
      apply Z.mul_le_mono_nonneg_l; lia. }
    assert (0 ≤ a * e ≤ intp_max) as Hae.
    { split; [lia|]. etrans; [|exact Hstep].
      rewrite <- (Z.mul_1_r (a * e)) at 1.
      apply Z.mul_le_mono_nonneg_l; lia. }
    unfold intp_mul at 2. rewrite wrap_intp_small by (unfold intp_max in *; lia).
    destruct (IH (a * e)) as [-> Hbound]; [lia|done|].
    split; [lia|]. by rewrite Z.mul_assoc.
Qed.

Lemma shape_at_insert_eq (shape : list Z) (i : nat) (x : Z) :
  (i < length shape)%nat → shape_at (<[i:=x]> shape) i = x.
Proof. intros Hi. unfold shape_at. by rewrite list_lookup_insert_eq. Qed.

Lemma shape_at_insert_ne (shape : list Z) (i j : nat) (x : Z) :
  i ≠ j → shape_at (<[i:=x]> shape) j = shape_at shape j.
Proof. intros Hi. unfold shape_at. by rewrite list_lookup_insert_ne. Qed.

Lemma collapse_loop_prefix (shape : list Z) (j : nat) :
  (3 + j ≤ length shape)%nat →
  foldl (λ sh i, <[0%nat := intp_mul (shape_at sh 0) (shape_at sh i)]> sh)
    shape (seq 3 j)
  = <[0%nat := foldl intp_mul (shape_at shape 0) (take j (drop 3 shape))]> shape.
Proof.
  induction j as [|j IH]; intros Hj.
  - simpl. symmetry. apply list_insert_id. unfold shape_at.
    destruct shape; simpl in *; [lia|done].
  - rewrite seq_S, foldl_app, IH by lia. simpl.
    destruct (lookup_lt_is_Some_2 shape (3 + j)) as [e He]; [lia|].
    assert (drop 3 shape !! j = Some e) as Hd by by rewrite lookup_drop.
    rewrite (take_S_r _ _ _ Hd), foldl_app. simpl.
    rewrite list_insert_insert_eq. f_equal.
    rewrite shape_at_insert_eq, shape_at_insert_ne by lia.
    unfold shape_at at 2. simpl in He. by rewrite He.
Qed.

Lemma collapse_loop_exact (shape : list Z) (ndim : nat) :
  length shape = ndim → (3 < ndim)%nat → shape_fits shape →
  collapse_loop ndim shape
  = <[0%nat := shape_at shape 0 * foldr Z.mul 1 (drop 3 shape)]> shape
  ∧ 0 ≤ shape_at shape 0 * foldr Z.mul 1 (drop 3 shape) ≤ intp_max.
Proof.
  intros Hlen Hnd [Hnn Hfit]. unfold collapse_loop.
  rewrite collapse_loop_prefix by lia.
  rewrite take_ge by (rewrite length_drop; lia).
  destruct shape as [|s0 [|s1 [|s2 rest]]]; simpl in Hlen; try lia.
  unfold shape_at. simpl.
  apply Forall_cons in Hnn as [H0 Hnn].
  apply Forall_cons in Hnn as [H1 Hnn].
  apply Forall_cons in Hnn as [H2 Hnn].
  unfold padded_size in Hfit. simpl in Hfit. fold (padded_size rest) in Hfit.
  pose proof (padded_size_pos rest) as Hpos.
  change (drop 0 rest) with rest.
  destruct (intp_product_exact s0 rest) as [-> Hb]; [done|done| |done].
  etrans; [|exact Hfit].
  etrans; [apply (Z.mul_le_mono_nonneg_r _ (Z.max s0 1)); lia|].
  apply Z.mul_le_mono_nonneg_l; [lia|].
  generalize dependent (padded_size rest). intros ps _ Hps.
  assert (1 ≤ Z.max s1 1) as Ha by lia. assert (1 ≤ Z.max s2 1) as Hb by lia.
  revert Ha Hb. generalize (Z.max s1 1) (Z.max s2 1). intros a b Ha Hb.
  assert (ps ≤ b * ps) by nia. assert (b * ps ≤ a * (b * ps)) by nia. lia.
Qed.

(** ** What [run_ufunc] hands to the executor *)

Lemma plan_strides_rev_length u s t :
  length (plan_strides_rev u s t) = length u.
Proof.
  revert s t. induction u as [|ue u IH]; intros s t; simpl; [done|].
  destruct s, t; simpl; by rewrite IH.
Qed.

Lemma plan_strides_length ushape a :
  length (plan_strides ushape a) = length ushape.
Proof.
  unfold plan_strides. by rewrite length_reverse, plan_strides_rev_length,
    length_reverse.
Qed.

Lemma collapse_shape_exact contig ndim shape :
  length shape = ndim → shape_fits shape →
  collapse_shape contig ndim shape
  = if contig && bool_decide (3 < ndim)%nat
    then <[0%nat := shape_at shape 0 * foldr Z.mul 1 (drop 3 shape)]> shape
    else shape.
Proof.
  intros Hlen Hfit. unfold collapse_shape.
  destruct contig; simpl; [|done]. case_bool_decide; [|done].
  by apply collapse_loop_exact.
Qed.

Lemma collapse_shape_nonneg contig ndim shape :
  length shape = ndim → shape_fits shape →
  Forall (λ e, 0 ≤ e) (collapse_shape contig ndim shape).
Proof.
  intros Hlen Hfit. rewrite collapse_shape_exact by done.
  destruct contig; simpl; [|apply Hfit]. case_bool_decide; [|apply Hfit].
  apply Forall_insert; [apply Hfit|].
  by apply (collapse_loop_exact shape ndim).
Qed.

Lemma collapse_shape_length contig ndim shape :
  length shape = ndim → shape_fits shape →
  length (collapse_shape contig ndim shape) = ndim.
Proof.
  intros Hlen Hfit. rewrite collapse_shape_exact by done.
  destruct contig; simpl; [|done]. case_bool_decide; [|done].
  by rewrite length_insert.
Qed.

Section DispatcherProofs.

Context {World : Type}.
Variable call_minifunc : Z → kernel_args → World → World * option string.
Variable get_arrays_ordering : list ndarray → Z.
Variables ARRAY_C_ORDER ARRAYS_ARE_CONTIG ARRAYS_ARE_INNER_CONTIG : Z.
Variables ARRAYS_ARE_MIXED_CONTIG ARRAYS_ARE_MIXED_STRIDED : Z.

Abbreviation invoke := (invoke_all call_minifunc).
Abbreviation run_hd := (run_higher_dimensional call_minifunc).
Abbreviation exec_result := (executor_result call_minifunc).
Abbreviation dispatch :=
  (UFuncDispatcher_call call_minifunc get_arrays_ordering ARRAY_C_ORDER
     ARRAYS_ARE_CONTIG ARRAYS_ARE_INNER_CONTIG ARRAYS_ARE_MIXED_CONTIG
     ARRAYS_ARE_MIXED_STRIDED).
Abbreviation strategy_of :=
  (select_strategy ARRAYS_ARE_CONTIG ARRAYS_ARE_INNER_CONTIG
     ARRAYS_ARE_MIXED_CONTIG ARRAYS_ARE_MIXED_STRIDED).
Abbreviation contig_of := (contig_flag ARRAYS_ARE_CONTIG).

Lemma ex_shape_prepare bshape ndim out arrays contig :
  ex_shape (prepare_executor bshape ndim out arrays contig)
  = collapse_shape contig ndim bshape.
Proof using Type. reflexivity. Qed.

Lemma ex_strides_prepare bshape ndim out arrays contig :
  ex_strides (prepare_executor bshape ndim out arrays contig)
  = (λ v, StridePtr v 0) <$> (plan_strides bshape <$> (out :: arrays)).
Proof using Type. reflexivity. Qed.

Lemma ex_data_pointers_prepare bshape ndim out arrays contig :
  ex_data_pointers (prepare_executor bshape ndim out arrays contig)
  = arr_data <$> (out :: arrays).
Proof using Type. reflexivity. Qed.

Lemma prepare_executor_wf bshape ndim out arrays contig (w : World) log :
  length bshape = ndim → shape_fits bshape →
  Forall (λ a, in_ptr_range (arr_data a)) (out :: arrays) →
  let ex := prepare_executor bshape ndim out arrays contig in
  exec_wf (ex_shape ex) (ex_n_ops ex) (0 + ex_ndim ex)
    (Machine (ex_data_pointers ex) (ex_strides ex) w log).
Proof.
  intros Hlen Hfit Hptr ex. subst ex.
  unfold exec_wf. cbn [data_pointers strides].
  rewrite ex_shape_prepare, ex_strides_prepare, ex_data_pointers_prepare.
  cbn [ex_n_ops ex_ndim prepare_executor broadcast_arrays build_dynamic_args].
  rewrite !length_fmap.
  split; [by apply collapse_shape_length|].
  split; [done|]. split; [done|].
  split; [|split; [by apply Forall_fmap|by apply collapse_shape_nonneg]].
  apply Forall_fmap, Forall_fmap, Forall_true.
  intros a. unfold compose. simpl. by rewrite plan_strides_length.
Qed.

(** [run_ufunc] in terms of the leaf invocations computed from full
    indices; the scratch arrays are released on either exit. *)
Lemma run_ufunc_result fp bshape ndim out arrays contig (st : py_state) :
  length bshape = ndim → shape_fits bshape →
  Forall (λ a, in_ptr_range (arr_data a)) (out :: arrays) →
  int_extents (collapse_shape contig ndim bshape) 0 ndim →
  run_ufunc call_minifunc fp bshape ndim out arrays contig st
  = let ex := prepare_executor bshape ndim out arrays contig in
    let '(r, m') :=
      exec_result fp (ex_shape ex) ndim 0
        (Machine (ex_data_pointers ex) (ex_strides ex) (py_mem st)
           (py_calls st)) in
    (match r with
     | Returned _ => Returned PyNone
     | Raised e => Raised e
     | Overflowed => Overflowed
     end,
     PyState (mem m') (calls m') (py_allocated st) (py_next st)
       (py_scratch st)).
Proof.
  intros Hlen Hfit Hptr Hint. unfold run_ufunc. cbv zeta.
  rewrite run_higher_dimensional_result;
    [|by apply prepare_executor_wf|exact Hint].
  change (ex_ndim (prepare_executor bshape ndim out arrays contig)) with ndim.
  destruct (exec_result _ _ _ _ _) as [[u|e|] m'];
    do 2 f_equal; lia.
Qed.

Lemma prepare_executor_strides_wf bshape ndim out arrays contig (w : World)
    log :
  let ex := prepare_executor bshape ndim out arrays contig in
  strides_wf (ex_n_ops ex)
    (Machine (ex_data_pointers ex) (ex_strides ex) w log).
Proof using Type.
  intros ex. subst ex. split; cbn [strides].
  - rewrite ex_strides_prepare. by rewrite !length_fmap.
  - rewrite ex_strides_prepare. by apply Forall_fmap, Forall_true.
Qed.

Lemma contig_flag_strategy order any_broadcasting :
  contig_of order any_broadcasting = true
  ↔ strategy_of order any_broadcasting = FullyContiguous.
Proof using Type.
  unfold select_strategy.
  destruct (contig_flag _ order any_broadcasting); [done|].
  repeat case_decide; split; done.
Qed.

(** C4.  With the fully-contiguous strategy selected and more than three
    dimensions, the shape the executor gets has entry 0 replaced by the
    product of the extent at index 0 with the extents at indices 3 to
    [ndim - 1]; in every other case it is the unified shape, unchanged. *)
Theorem collapse_replaces_entry_0 bshape ndim out arrays order
    any_broadcasting :
  length bshape = ndim → shape_fits bshape →
  ex_shape
    (prepare_executor bshape ndim out arrays
       (contig_of order any_broadcasting))
  = if decide (strategy_of order any_broadcasting = FullyContiguous
               ∧ (3 < ndim)%nat)
    then <[0%nat := shape_at bshape 0 * foldr Z.mul 1 (drop 3 bshape)]> bshape
    else bshape.
Proof using Type.
  intros Hlen Hfit. unfold prepare_executor. simpl.
  rewrite collapse_shape_exact by done.
  pose proof (contig_flag_strategy order any_broadcasting) as Hc.
  destruct (contig_of order any_broadcasting); simpl.
  - destruct Hc as [Hc _]. specialize (Hc eq_refl).
    case_bool_decide as Hnd; case_decide as Hsel; try done.
    + exfalso. apply Hsel. by split.
    + exfalso. apply Hnd. by destruct Hsel.
  - case_decide as H; [|done]. destruct H as [H _].
    apply Hc in H. done.
Qed.

(** C10.  When the collapsing step applies, the executor is handed the
    shape with only entry 0 changed, the planned strides and the data
    pointers of the operands, and the dimensionality [ndim] itself: what
    [run_ufunc] does is the run of the executor on these.  The executor
    then loops over the inflated extent at index 0 and the extents at
    indices 1 to [ndim - 3]: where these are within the range of its [int]
    loop counter and the kernel does not fail, the kernel is invoked once
    per index vector over them. *)
Theorem collapse_changes_entry_0_only fp bshape ndim out arrays
    (st : py_state) :
  length bshape = ndim → (3 < ndim)%nat → shape_fits bshape →
  Forall (λ a, in_ptr_range (arr_data a)) (out :: arrays) →
  let ex := prepare_executor bshape ndim out arrays true in
  let inflated := shape_at bshape 0 * foldr Z.mul 1 (drop 3 bshape) in
  (∀ i : nat, (1 ≤ i)%nat → ex_shape ex !! i = bshape !! i)
  ∧ length (ex_shape ex) = ndim
  ∧ ex_strides ex
    = (λ v, StridePtr v 0) <$> (plan_strides bshape <$> (out :: arrays))
  ∧ ex_data_pointers ex = arr_data <$> (out :: arrays)
  ∧ ex_ndim ex = ndim
  ∧ (let run :=
       run_hd fp (<[0%nat := inflated]> bshape) ndim (S (length arrays)) 0
         (Machine (arr_data <$> (out :: arrays))
            ((λ v, StridePtr v 0) <$> (plan_strides bshape <$> (out :: arrays)))
            (py_mem st) (py_calls st)) in
     run_ufunc call_minifunc fp bshape ndim out arrays true st
     = (match run.1 with
        | Returned _ => Returned PyNone
        | Raised e => Raised e
        | Overflowed => Overflowed
        end,
        PyState (mem run.2) (calls run.2) (py_allocated st) (py_next st)
          (py_scratch st)))
  ∧ (Forall (λ e, e ≤ int_max) (inflated :: take (ndim - 3) (drop 1 bshape)) →
     (∀ c w0, (call_minifunc fp c w0).2 = None) →
     py_calls (run_ufunc call_minifunc fp bshape ndim out arrays true st).2
     = py_calls st
       ++ ((fp,.)
             <$> (leaf_args (ex_shape ex) (ex_data_pointers ex)
                    (plan_strides bshape <$> (out :: arrays)) 0
                    <$> index_space
                          (inflated :: take (ndim - 3) (drop 1 bshape))))).
Proof.
  intros Hlen Hnd Hfit Hptr ex inflated.
  assert (Hex : ex_shape ex = <[0%nat := inflated]> bshape).
  { unfold ex. rewrite ex_shape_prepare, collapse_shape_exact by done.
    simpl. by rewrite bool_decide_eq_true_2. }
  rewrite Hex. split; [|split; [|split; [|split; [|split; [|split]]]]];
    try done.
  - intros i Hi. apply list_lookup_insert_ne. lia.
  - by rewrite length_insert.
  - cbv zeta. rewrite <- Hex. unfold run_ufunc. cbv zeta. fold ex.
    change (ex_ndim ex) with ndim.
    change (ex_n_ops ex) with (S (length arrays)).
    change (ex_data_pointers ex) with (arr_data <$> (out :: arrays)).
    change (ex_strides ex)
      with ((λ v, StridePtr v 0) <$> (plan_strides bshape <$> (out :: arrays))).
    destruct (run_hd fp (ex_shape ex) ndim (S (length arrays)) 0 _)
      as [[u|e|] m']; cbn [fst snd]; do 2 f_equal; lia.
  - intros Hint Hok. rewrite run_ufunc_result; [|done..|].
    2:{ change (collapse_shape true ndim bshape) with (ex_shape ex).
        rewrite Hex. unfold int_extents.
        destruct bshape as [|s0 rest]; simpl in *; [lia|].
        by replace (ndim - 2)%nat with (S (ndim - 3)) by lia. }
    cbv zeta.
    fold ex. unfold executor_result. cbn [data_pointers strides mem calls].
    assert (Hvec : sp_vec <$> ex_strides ex
                   = plan_strides bshape <$> (out :: arrays)).
    { unfold ex. rewrite ex_strides_prepare. apply start_strides_vec. }
    rewrite Hvec, Hex.
    destruct (invoke_all_no_failure call_minifunc fp
      (leaf_invocations (<[0%nat:=inflated]> bshape) (ex_data_pointers ex)
         (plan_strides bshape <$> out :: arrays) ndim 0) (py_mem st) Hok)
      as [Hr Hmade].
    destruct (invoke_all _ _ _ _) as [[w' made] r]. simpl in *.
    subst r made. simpl. f_equal. f_equal.
    unfold leaf_invocations. f_equal. f_equal.
    destruct bshape as [|s0 rest]; simpl in *; [lia|].
    replace (ndim - 2)%nat with (S (ndim - 3)) by lia. done.
Qed.

(** C5, as the code has it.  Let [made] be the kernel invocations a run of
    the executor adds to the log and let one of them fail, [c] with the
    error [err], when they are called in order from the memory the run
    started in.  Then the run raises that error as it is, from whatever
    depth, and [c] is the last invocation made.  No enclosing level
    rewinds: the data pointers are left as they were passed to [c] and the
    stride pointers are left advanced to the leaf's [dim_level].
    [run_ufunc] raises the same error to its caller, having freed the
    scratch arrays in its [finally] clause. *)
Theorem kernel_failure_unwinds_without_rewind fp bshape ndim out arrays
    contig (st : py_state) made c err :
  let ex := prepare_executor bshape ndim out arrays contig in
  let run :=
    run_hd fp (ex_shape ex) ndim (ex_n_ops ex) 0
      (Machine (ex_data_pointers ex) (ex_strides ex) (py_mem st)
         (py_calls st)) in
  calls run.2 = py_calls st ++ ((fp,.) <$> made) →
  (invoke fp made (py_mem st)).2 = Some (c, err) →
  run.1 = Raised (KernelError err)
  ∧ last made = Some c
  ∧ (invoke fp made (py_mem st)).1 = (mem run.2, made)
  ∧ data_pointers run.2 = k_data c
  ∧ strides run.2
    = (λ sp, StridePtr (sp_vec sp) (ndim - 2)) <$> ex_strides ex
  ∧ run_ufunc call_minifunc fp bshape ndim out arrays contig st
    = (Raised (KernelError err),
       PyState (mem run.2) (py_calls st ++ ((fp,.) <$> made))
         (py_allocated st) (py_next st) (py_scratch st)).
Proof.
  intros ex run Hlog Hfail.
  assert (Hufunc :
    run_ufunc call_minifunc fp bshape ndim out arrays contig st
    = (match run.1 with
       | Returned _ => Returned PyNone
       | Raised e => Raised e
       | Overflowed => Overflowed
       end,
       PyState (mem run.2) (calls run.2) (py_allocated st) (py_next st)
         (py_scratch st))).
  { unfold run_ufunc. cbv zeta. fold ex.
    change (ex_ndim ex) with ndim. fold run.
    destruct run as [[u|e|] m']; cbn [fst snd]; do 2 f_equal; lia. }
  destruct run as [r m'] eqn:Hrun. cbn [fst snd] in *.
  pose proof (executor_strides call_minifunc fp (ex_shape ex) (ex_n_ops ex)
                ndim 0 _ r m'
                (prepare_executor_strides_wf bshape ndim out arrays contig
                   (py_mem st) (py_calls st)) Hrun) as [Hstr _].
  apply executor_trace in Hrun as (made' & Hc & Hi).
  cbn [calls mem] in Hc, Hi.
  assert (made' = made) as ->.
  { rewrite Hlog in Hc. apply app_inv_head in Hc.
    by apply (inj (fmap (fp,.))) in Hc. }
  destruct r as [u|e|]; [by rewrite Hi in Hfail| |by rewrite Hi in Hfail].
  destruct Hi as (c' & err' & -> & Hi & Hlast & Hd & _).
  rewrite Hi in Hfail |- *. injection Hfail as -> ->.
  rewrite Hufunc, Hlog. done.
Qed.

(** [__call__] up to the call of [run_ufunc]. *)
Lemma dispatch_runs_ufunc self args out (st : py_state) bshape bundle :
  length args = nin self →
  np_broadcast (arr_shape <$> (args ++ from_option (λ o, [o]) [] out))
  = Some bshape →
  functions self !! (arr_dtype <$> args, length bshape) = Some bundle →
  let order := get_arrays_ordering args in
  let any_broadcasting :=
    is_broadcasting (args ++ from_option (λ o, [o]) [] out) bshape in
  let target :=
    match out with
    | Some o => (o, st)
    | None =>
        np_empty bshape (result_dtype bundle)
          (if decide (Z.land order ARRAY_C_ORDER ≠ 0) then OrderC else OrderF)
          st
    end in
  dispatch self args out st
  = run_ufunc call_minifunc
      (strategy_func bundle (strategy_of order any_broadcasting))
      bshape (length bshape) target.1 args
      (contig_of order any_broadcasting) target.2.
Proof.
  intros Hnin Hb Hf. unfold UFuncDispatcher_call.
  rewrite decide_False by (by intros ?).
  rewrite Hb, Hf. cbv zeta. by destruct out.
Qed.

(** C8.  A call with a number of positional operands other than [nin]
    raises the arity error and changes nothing: shapes are not broadcast
    (the outcome does not depend on them), nothing is allocated and no
    kernel runs. *)
Theorem arity_error_before_anything self args out (st : py_state) :
  length args ≠ nin self →
  dispatch self args out st
  = (Raised (TypeError (nin self) (length args)), st).
Proof.
  intros Hn. unfold UFuncDispatcher_call. by rewrite decide_True.
Qed.

(** C6.  When the operands broadcast but the key of operand dtypes and
    broadcast dimensionality has no entry in [functions], the call raises
    the no-signature error and changes nothing: no buffer is allocated,
    no kernel runs, no memory is written.  The lookup is made once, on
    the exact key. *)
Theorem unsupported_signature_changes_nothing self args out
    (st : py_state) bshape :
  length args = nin self →
  np_broadcast (arr_shape <$> (args ++ from_option (λ o, [o]) [] out))
  = Some bshape →
  functions self !! (arr_dtype <$> args, length bshape) = None →
  dispatch self args out st
  = (Raised (ValueError_no_signature (dt_name <$> (arr_dtype <$> args))), st).
Proof.
  intros Hnin Hb Hf. unfold UFuncDispatcher_call.
  rewrite decide_False by (by intros ?).
  by rewrite Hb, Hf.
Qed.

(** [run_ufunc] has no [return]: a call that returns returns [None]. *)
Lemma run_ufunc_returns_none fp bshape ndim out arrays contig
    (st st' : py_state) v :
  run_ufunc call_minifunc fp bshape ndim out arrays contig st
  = (Returned v, st') →
  v = PyNone.
Proof.
  unfold run_ufunc. cbv zeta.
  destruct (run_higher_dimensional _ _ _ _ _ _ _) as [[u|e|] m'];
    by intros [= <- _].
Qed.

Lemma dispatch_returns_none self args out (st st' : py_state) v :
  dispatch self args out st = (Returned v, st') → v = PyNone.
Proof.
  unfold UFuncDispatcher_call. case_decide; [done|].
  destruct (np_broadcast _) as [bshape|]; [|done].
  destruct (functions self !! _) as [bundle|]; [|done].
  destruct out as [o|]; simpl; apply run_ufunc_returns_none.
Qed.

End DispatcherProofs.

(** ** Broadcasting *)

Lemma unify_extent_1_l y : unify_extent 1 y = Some y.
Proof. unfold unify_extent. by rewrite decide_True. Qed.

Lemma unify_extent_1_r x : unify_extent x 1 = Some x.
Proof.
  unfold unify_extent. destruct (decide (x = 1)) as [->|]; [done|].
  by rewrite decide_True.
Qed.

Lemma unify_extent_same x : unify_extent x x = Some x.
Proof.
  unfold unify_extent. repeat case_decide; try done; try (f_equal; lia).
Qed.

(** Where unification succeeds, an extent greater than 1 is the result. *)
Lemma unify_extent_keeps x y z :
  unify_extent x y = Some z → (1 < x → z = x) ∧ (1 < y → z = y).
Proof.
  unfold unify_extent. repeat case_decide; intros [= <-]; split; lia.
Qed.

Lemma unify_extent_conflict x y :
  1 < x → 1 < y → x ≠ y → unify_extent x y = None.
Proof.
  intros. unfold unify_extent.
  rewrite !decide_False by lia. by rewrite decide_True.
Qed.

Lemma broadcast_rev_Some a b r :
  broadcast_rev a b = Some r →
  length r = (length a `max` length b)%nat
  ∧ ∀ k, unify_extent (default 1 (a !! k)) (default 1 (b !! k))
         = Some (default 1 (r !! k)).
Proof.
  revert b r. induction a as [|x a IH]; intros b r; simpl.
  - intros [= <-]. split; [done|]. intros k. apply unify_extent_1_l.
  - destruct b as [|y b].
    + intros [= <-]. split; [simpl; lia|]. intros k.
      rewrite lookup_nil. apply unify_extent_1_r.
    + destruct (unify_extent x y) as [z|] eqn:Hz; simpl; [|done].
      destruct (broadcast_rev a b) as [r'|] eqn:Hr; simpl; [|done].
      intros [= <-]. destruct (IH _ _ Hr) as [Hlen Hk].
      split; [simpl; lia|]. intros [|k]; simpl; [done|apply Hk].
Qed.

Lemma broadcast_rev_None a b :
  broadcast_rev a b = None →
  ∃ k, unify_extent (default 1 (a !! k)) (default 1 (b !! k)) = None.
Proof.
  revert b. induction a as [|x a IH]; intros b; simpl; [done|].
  destruct b as [|y b]; [done|].
  destruct (unify_extent x y) as [z|] eqn:Hz; simpl.
  - destruct (broadcast_rev a b) as [r'|] eqn:Hr; simpl; [done|].
    intros _. destruct (IH _ Hr) as [k Hk]. by exists (S k).
  - intros _. by exists 0%nat.
Qed.

Lemma broadcast2_Some u s r :
  broadcast2 u s = Some r →
  length r = (length u `max` length s)%nat
  ∧ ∀ k, unify_extent (extent_from_end u k) (extent_from_end s k)
         = Some (extent_from_end r k).
Proof.
  unfold broadcast2, extent_from_end.
  destruct (broadcast_rev (reverse u) (reverse s)) as [r'|] eqn:Hr; [|done].
  simpl. intros [= <-]. rewrite reverse_involutive, length_reverse.
  apply broadcast_rev_Some in Hr as [Hlen Hk].
  by rewrite !length_reverse in Hlen.
Qed.

Lemma broadcast2_None u s :
  broadcast2 u s = None →
  ∃ k, unify_extent (extent_from_end u k) (extent_from_end s k) = None.
Proof.
  unfold broadcast2, extent_from_end.
  destruct (broadcast_rev (reverse u) (reverse s)) as [r'|] eqn:Hr; [done|].
  intros _. by apply broadcast_rev_None.
Qed.

Lemma np_broadcast_snoc shapes s :
  np_broadcast (shapes ++ [s]) = np_broadcast shapes ≫= λ u, broadcast2 u s.
Proof. unfold np_broadcast. by rewrite foldl_app. Qed.

(** In a broadcast shape every operand extent greater than 1 is kept. *)
Lemma np_broadcast_keeps shapes u :
  np_broadcast shapes = Some u →
  ∀ a k, a ∈ shapes → 1 < extent_from_end a k →
    extent_from_end u k = extent_from_end a k.
Proof.
  revert u. induction shapes as [|s shapes IH] using rev_ind; intros u Hu a k Ha.
  - by apply elem_of_nil in Ha.
  - rewrite np_broadcast_snoc in Hu.
    destruct (np_broadcast shapes) as [u0|] eqn:Hu0; [|done]. simpl in Hu.
    apply broadcast2_Some in Hu as [_ Hk]. specialize (Hk k).
    apply unify_extent_keeps in Hk as [Hl Hr].
    apply elem_of_app in Ha as [Ha|Ha].
    + intros Hgt. specialize (IH _ eq_refl _ k Ha Hgt).
      rewrite <- IH. apply Hl. lia.
    + apply list_elem_of_singleton in Ha as ->. done.
Qed.

(** Two operands with differing extents greater than 1 in one aligned
    dimension make [np.broadcast] fail. *)
Lemma np_broadcast_mismatch shapes a b k :
  a ∈ shapes → b ∈ shapes →
  1 < extent_from_end a k → 1 < extent_from_end b k →
  extent_from_end a k ≠ extent_from_end b k →
  np_broadcast shapes = None.
Proof.
  intros Ha Hb Hak Hbk Hne.
  destruct (np_broadcast shapes) as [u|] eqn:Hu; [|done].
  pose proof (np_broadcast_keeps _ _ Hu a k Ha Hak).
  pose proof (np_broadcast_keeps _ _ Hu b k Hb Hbk).
  congruence.
Qed.

Lemma max_length_snoc (shapes : list (list Z)) s :
  foldr Nat.max 0%nat (length <$> (shapes ++ [s]))
  = (foldr Nat.max 0%nat (length <$> shapes) `max` length s)%nat.
Proof. induction shapes as [|a shapes IH]; csimpl; [lia|]. rewrite IH. lia. Qed.

Lemma max_length_bound (shapes : list (list Z)) a :
  a ∈ shapes → (length a ≤ foldr Nat.max 0%nat (length <$> shapes))%nat.
Proof.
  induction shapes as [|b shapes IH]; [by intros ?%elem_of_nil|].
  intros [->|Ha]%elem_of_cons; csimpl; [lia|]. specialize (IH Ha). lia.
Qed.

Lemma extent_from_end_ge shape k :
  (length shape ≤ k)%nat → extent_from_end shape k = 1.
Proof.
  intros Hk. unfold extent_from_end.
  by rewrite lookup_ge_None_2 by (by rewrite length_reverse).
Qed.

Lemma unified_extent_snoc shapes s k :
  unified_extent (shapes ++ [s]) k
  = if decide (unified_extent shapes k = 1) then extent_from_end s k
    else unified_extent shapes k.
Proof.
  unfold unified_extent. rewrite fmap_app, filter_app. simpl.
  destruct (filter _ ((λ s0, extent_from_end s0 k) <$> shapes)) as [|e l] eqn:Hf.
  - simpl. rewrite filter_cons. case_decide as He; [done|].
    simpl. destruct (decide (extent_from_end s k = 1)); [done|tauto].
  - simpl. assert (e ≠ 1) as He.
    { assert (e ∈ filter (λ e, e ≠ 1) ((λ s0, extent_from_end s0 k) <$> shapes))
        as Hin by (rewrite Hf; left).
      by apply list_elem_of_filter in Hin as [? _]. }
    by rewrite decide_False.
Qed.

Lemma unified_extent_witness shapes k :
  unified_extent shapes k ≠ 1 →
  ∃ a, a ∈ shapes ∧ extent_from_end a k = unified_extent shapes k.
Proof.
  unfold unified_extent.
  destruct (filter _ ((λ s0, extent_from_end s0 k) <$> shapes)) as [|e l] eqn:Hf;
    [done|].
  simpl. intros _.
  assert (e ∈ filter (λ e, e ≠ 1) ((λ s0, extent_from_end s0 k) <$> shapes))
    as Hin by (rewrite Hf; left).
  apply list_elem_of_filter in Hin as [_ Hin].
  apply list_elem_of_fmap in Hin as (a & -> & Ha). by exists a.
Qed.

Lemma extent_numpy_broadcast_shape shapes k :
  extent_from_end (numpy_broadcast_shape shapes) k = unified_extent shapes k.
Proof.
  unfold extent_from_end, numpy_broadcast_shape.
  rewrite reverse_involutive, list_lookup_fmap.
  destruct (decide (k < foldr Nat.max 0%nat (length <$> shapes))%nat) as [Hk|Hk].
  - by rewrite lookup_seq_lt.
  - rewrite lookup_seq_ge by lia. simpl.
    destruct (decide (unified_extent shapes k = 1)) as [->|Hne]; [done|].
    destruct (unified_extent_witness _ _ Hne) as (a & Ha & Hext).
    pose proof (max_length_bound _ _ Ha).
    rewrite extent_from_end_ge in Hext by lia. congruence.
Qed.

Lemma length_numpy_broadcast_shape shapes :
  length (numpy_broadcast_shape shapes)
  = foldr Nat.max 0%nat (length <$> shapes).
Proof.
  unfold numpy_broadcast_shape.
  by rewrite length_reverse, length_fmap, length_seq.
Qed.

(** Lists of one length with the same extents from the end are equal. *)
Lemma extent_from_end_ext (l1 l2 : list Z) :
  length l1 = length l2 →
  (∀ k, extent_from_end l1 k = extent_from_end l2 k) →
  l1 = l2.
Proof.
  intros Hlen Hext. apply (inj reverse). apply list_eq. intros k.
  specialize (Hext k). unfold extent_from_end in Hext.
  destruct (reverse l1 !! k) as [x|] eqn:H1, (reverse l2 !! k) as [y|] eqn:H2;
    simpl in *; try congruence.
  - apply lookup_lt_Some in H1. apply lookup_ge_None in H2.
    rewrite length_reverse in *. lia.
  - apply lookup_lt_Some in H2. apply lookup_ge_None in H1.
    rewrite length_reverse in *. lia.
Qed.

(** On compatible shapes [np.broadcast] succeeds with NumPy's documented
    result. *)
Lemma np_broadcast_compatible shapes :
  broadcast_compatible shapes →
  np_broadcast shapes = Some (numpy_broadcast_shape shapes).
Proof.
  induction shapes as [|s shapes IH] using rev_ind; intros Hc; [done|].
  rewrite np_broadcast_snoc, IH; simpl.
  2:{ intros a b k Ha Hb. apply Hc; apply elem_of_app; by left. }
  assert (Hk : ∀ k,
    unify_extent (extent_from_end (numpy_broadcast_shape shapes) k)
      (extent_from_end s k)
    = Some (unified_extent (shapes ++ [s]) k)).
  { intros k. rewrite extent_numpy_broadcast_shape, unified_extent_snoc.
    case_decide as Hu; [rewrite Hu; apply unify_extent_1_l|].
    destruct (unified_extent_witness _ _ Hu) as (a & Ha & Hext).
    destruct (Hc a s k) as [H|[H|H]].
    - apply elem_of_app. by left.
    - apply elem_of_app. right. by left.
    - rewrite <- H, Hext. apply unify_extent_same.
    - congruence.
    - rewrite H. apply unify_extent_1_r. }
  destruct (broadcast2 (numpy_broadcast_shape shapes) s) as [r|] eqn:Hr.
  - f_equal. apply broadcast2_Some in Hr as [Hlen Hr].
    apply extent_from_end_ext.
    + rewrite Hlen, !length_numpy_broadcast_shape, max_length_snoc. done.
    + intros k. specialize (Hr k). rewrite Hk in Hr.
      rewrite extent_numpy_broadcast_shape. congruence.
  - apply broadcast2_None in Hr as [k Hr]. by rewrite Hk in Hr.
Qed.

(** ** Planned strides *)

Lemma plan_strides_rev_lookup u s t k :
  length t = length s → (k < length u)%nat →
  plan_strides_rev u s t !! k
  = Some (match s !! k, t !! k with
          | Some se, Some te => if decide (se = 1) then 0 else te
          | _, _ => 0
          end).
Proof.
  revert s t k. induction u as [|ue u IH]; intros s t k Hlen Hk; simpl in Hk;
    [lia|].
  destruct s as [|se s], t as [|te t]; simplify_eq/=.
  - destruct k as [|k]; simpl; [done|]. rewrite IH by (simpl; lia).
    by rewrite !lookup_nil.
  - destruct k as [|k]; simpl; [done|]. apply IH; lia.
Qed.

(** C2, as the planner has it.  On broadcast-compatible operand shapes the
    unified shape, which [broadcast_arrays] copies into its plan, is the
    standard NumPy broadcasting result.  In the stride vector planned for
    an operand, every dimension the operand does not have and every
    dimension it declares with extent 1 has stride 0, whatever the unified
    extent there, and every other dimension has the operand's own stride.
    So the dimensions with stride 0 are exactly the dimensions the operand
    does not have, those it declares with extent 1, and those whose stride
    the operand itself declares as 0.  Dimensions are counted from the last
    one, as broadcasting aligns them. *)
Theorem broadcast_plan_is_numpy (arrays : list ndarray) :
  broadcast_compatible (arr_shape <$> arrays) →
  let u := numpy_broadcast_shape (arr_shape <$> arrays) in
  let plan := broadcast_arrays arrays u (length u) in
  np_broadcast (arr_shape <$> arrays) = Some u
  ∧ plan.1 = u
  ∧ ∀ (j : nat) a, arrays !! j = Some a →
      length (arr_strides a) = length (arr_shape a) →
      ∃ sv, plan.2 !! j = Some sv
            ∧ length sv = length u
            ∧ ∀ k : nat, (k < length u)%nat →
                ∃ z, reverse sv !! k = Some z
                     ∧ ((length (arr_shape a) ≤ k)%nat
                        ∨ extent_from_end (arr_shape a) k = 1 → z = 0)
                     ∧ ((k < length (arr_shape a))%nat →
                        extent_from_end (arr_shape a) k ≠ 1 →
                        reverse (arr_strides a) !! k = Some z)
                     ∧ (z = 0
                        ↔ (length (arr_shape a) ≤ k)%nat
                          ∨ extent_from_end (arr_shape a) k = 1
                          ∨ reverse (arr_strides a) !! k = Some 0).
Proof.
  intros Hc u plan. split; [by apply np_broadcast_compatible|].
  split; [done|].
  intros j a Hj Hlen. exists (plan_strides u a).
  split; [subst plan; simpl; by rewrite list_lookup_fmap, Hj|].
  split; [apply plan_strides_length|].
  intros k Hk. unfold plan_strides. rewrite reverse_involutive.
  rewrite plan_strides_rev_lookup
    by (rewrite !length_reverse; first [done|lia]).
  eexists. split; [done|].
  unfold extent_from_end.
  destruct (reverse (arr_shape a) !! k) as [se|] eqn:Hse.
  - pose proof (lookup_lt_Some _ _ _ Hse) as Hlt.
    rewrite length_reverse in Hlt.
    destruct (lookup_lt_is_Some_2 (reverse (arr_strides a)) k) as [te Hte].
    { rewrite length_reverse. lia. }
    rewrite Hte. simpl.
    case_decide as Hcond.
    + split; [done|]. split; [done|].
      split; [intros _; right; by left|done].
    + split; [intros [?|?]; [lia|done]|]. split; [done|]. split.
      * intros ->. by right; right.
      * intros [?|[?|?]]; [lia|done|congruence].
  - apply lookup_ge_None in Hse. rewrite length_reverse in Hse.
    split; [done|]. split; [intros; lia|].
    split; [by left|done].
Qed.

Section ShapeErrors.

Context {World : Type}.
Variable call_minifunc : Z → kernel_args → World → World * option string.
Variable get_arrays_ordering : list ndarray → Z.
Variables ARRAY_C_ORDER ARRAYS_ARE_CONTIG ARRAYS_ARE_INNER_CONTIG : Z.
Variables ARRAYS_ARE_MIXED_CONTIG ARRAYS_ARE_MIXED_STRIDED : Z.

Abbreviation dispatcher_call :=
  (UFuncDispatcher_call call_minifunc get_arrays_ordering ARRAY_C_ORDER
     ARRAYS_ARE_CONTIG ARRAYS_ARE_INNER_CONTIG ARRAYS_ARE_MIXED_CONTIG
     ARRAYS_ARE_MIXED_STRIDED).

(** The executor raises nothing but what a kernel raised. *)
Lemma executor_raises_kernel_errors fp shape n_ops n :
  ∀ d (m m' : machine World) e,
    run_higher_dimensional call_minifunc fp shape n n_ops d m
    = (Raised e, m') →
    ∃ err, e = KernelError err.
Proof.
  intros d m m' e Hrun.
  apply executor_trace in Hrun as (made & _ & c & err & -> & _).
  by exists err.
Qed.

(** C7.  Two operands with differing extents greater than 1 in one
    aligned dimension make the call raise the broadcast error with nothing
    changed: no output is allocated and no kernel runs.  On compatible
    shapes [np.broadcast] succeeds and the call does not raise that
    error. *)
Theorem shape_mismatch_raised self args out (st : py_state) :
  let shapes := arr_shape <$> (args ++ from_option (λ o, [o]) [] out) in
  length args = nin self →
  ((∃ a b k, a ∈ shapes ∧ b ∈ shapes
             ∧ 1 < extent_from_end a k ∧ 1 < extent_from_end b k
             ∧ extent_from_end a k ≠ extent_from_end b k) →
   dispatcher_call self args out st = (Raised ValueError_broadcast, st))
  ∧ (broadcast_compatible shapes →
     np_broadcast shapes = Some (numpy_broadcast_shape shapes)
     ∧ (dispatcher_call self args out st).1 ≠ Raised ValueError_broadcast).
Proof.
  intros shapes Hnin. split.
  - intros (a & b & k & Ha & Hb & Hak & Hbk & Hne).
    unfold UFuncDispatcher_call. rewrite decide_False by (by intros ?).
    fold shapes. by rewrite (np_broadcast_mismatch shapes a b k).
  - intros Hc. pose proof (np_broadcast_compatible _ Hc) as Hb.
    split; [done|].
    unfold UFuncDispatcher_call. rewrite decide_False by (by intros ?).
    fold shapes. rewrite Hb.
    destruct (functions self !! _) as [bundle|]; [|done].
    match goal with
    | |- (let '(_, _) := ?t in _).1 ≠ _ => destruct t as [o st1]
    end.
    unfold run_ufunc. cbv zeta.
    destruct (run_higher_dimensional _ _ _ _ _ _ _) as [[v|e|] m'] eqn:Hrun;
      simpl; [done| |done].
    apply executor_raises_kernel_errors in Hrun as [err ->]. done.
Qed.

End ShapeErrors.

(** * Concrete runs *)

(** The executor on the shape (2,3,2,3): the six leaf invocations in order,
    with the addresses of the full index computation
    [4096 + 144 * i + 48 * j]. *)
Example executor_trace_2323 :
  calls
    (run_higher_dimensional recording_kernel 7 [2; 3; 2; 3] 4 1 0
       (Machine [4096] [StridePtr [144; 48; 24; 8] 0] () [])).2
  = (λ p, (7, KernelArgs [2; 3] [p] [[24; 8]]))
      <$> [4096; 4144; 4192; 4240; 4288; 4336].
Proof. vm_compute. reflexivity. Qed.

Lemma leaf_addresses_fully_indexed_witness :
  let shape := [2; 3; 2; 3] in
  let dps := [4096; 8192] in
  let svecs := [[144; 48; 24; 8]; [72; 24; 12; 4]] in
  let res :=
    run_higher_dimensional recording_kernel 7 shape 4 2 0
      (Machine dps ((λ v, StridePtr v 0) <$> svecs) () []) in
  let outer := index_space (take 2 shape) in
  (∀ (k : nat) entry,
     calls res.2 !! k = Some entry →
     ∃ idx,
       outer !! k = Some idx
       ∧ entry.1 = 7
       ∧ k_data entry.2
         = zip_with (λ p sv, ptr_add p (index_offset idx sv)) dps svecs)
  ∧ res.1 = Returned () ∧ length (calls res.2) = 6%nat.
Proof.
  intros shape dps svecs.
  destruct (leaf_addresses_fully_indexed recording_kernel 7 shape 4 dps svecs ())
    as (Haddr & Hall & _ & _).
  - reflexivity.
  - reflexivity.
  - repeat constructor.
  - repeat constructor; unfold ptr_modulus; lia.
  - repeat constructor; lia.
  - repeat constructor; unfold int_max; lia.
  - split; [exact Haddr|]. apply Hall. reflexivity.
Defined.

(** C1 against the code: an [int8] operand of shape (2^31 + 2, 1, 1), with
    the output of the same shape.  The loop over dimension 0 counts in an
    [int]: after the [2^31] invocations of the indices 0 to [INT_MAX] the
    counter overflows, and the executor does not return, while there are
    [2^31 + 2] index vectors to visit. *)
Theorem int_counter_overruns_extent :
  let shape := [2 ^ 31 + 2; 1; 1] in
  let res :=
    run_higher_dimensional recording_kernel 7 shape 3 2 0
      (Machine [4096; 4294971392]
         [StridePtr [1; 0; 0] 0; StridePtr [1; 0; 0] 0] () []) in
  res.1 = Overflowed
  ∧ Z.of_nat (length (calls res.2)) = 2 ^ 31
  ∧ Z.of_nat (length (index_space (take 1 shape))) = 2 ^ 31 + 2.
Proof.
  intros shape res.
  destruct (executor_counter_overflows recording_kernel 7 shape 2 0 0
              (Machine [4096; 4294971392]
                 [StridePtr [1; 0; 0] 0; StridePtr [1; 0; 0] 0] () []))
    as [Hr Hc].
  - repeat split; try reflexivity.
    + repeat constructor.
    + repeat constructor; unfold ptr_modulus; lia.
    + repeat constructor; lia.
  - constructor.
  - reflexivity.
  - reflexivity.
  - split; [exact Hr|]. split.
    + subst res. rewrite Hc. cbn [calls app].
      rewrite length_fmap.
      assert (Hone : ∀ (l : list Z) (f : Z → list kernel_args),
        (∀ i, length (f i) = 1%nat) → length (l ≫= f) = length l).
      { intros l f Hf. induction l as [|i l IH]; [done|].
        rewrite bind_cons, length_app, Hf, IH. done. }
      rewrite Hone.
      * rewrite length_seqZ. unfold int_max. lia.
      * intros i. rewrite leaf_invocations_base; [done|lia|done|].
        apply shifted_range.
    + rewrite index_space_length by (repeat constructor; lia).
      subst shape. cbn [take foldr]. lia.
Qed.

(** Counterexample to C5 as the design document states it: the kernel fails
    on the second leaf invocation of a nest over the shape (2,1,1), and the
    executor raises the error with the data pointer still advanced by one
    stride and the stride pointer still offset by the leaf's [dim_level]. *)
Lemma failure_leaves_pointers_offset :
  let m0 := Machine [1000] [StridePtr [8; 8; 8] 0] () [] in
  let res :=
    run_higher_dimensional (failing_kernel [1008]) 7 [2; 1; 1] 3 1 0 m0 in
  res.1 = Raised (KernelError "domain error")
  ∧ data_pointers res.2 = [1008]
  ∧ data_pointers res.2 ≠ data_pointers m0
  ∧ strides res.2 = [StridePtr [8; 8; 8] 1]
  ∧ strides res.2 ≠ strides m0.
Proof. vm_compute. repeat split; congruence. Qed.

Lemma kernel_failure_unwinds_without_rewind_witness :
  let out := NDArray float64 [2; 1; 1] [8; 8; 8] 1000 in
  let a := NDArray float64 [2; 1; 1] [8; 8; 8] 2000 in
  let c0 := KernelArgs [1; 1] [1000; 2000] [[0; 0]; [0; 0]] in
  let c1 := KernelArgs [1; 1] [1008; 2008] [[0; 0]; [0; 0]] in
  run_ufunc (failing_kernel [1008; 2008]) 14 [2; 1; 1] 3 out [a] false
    fresh_state
  = (Raised (KernelError "domain error"),
     PyState () [(14, c0); (14, c1)] [] 65536 0).
Proof.
  intros out a c0 c1.
  destruct (kernel_failure_unwinds_without_rewind
              (failing_kernel [1008; 2008]) 14 [2; 1; 1] 3 out [a] false
              fresh_state [c0; c1] c1 "domain error")
    as (_ & _ & _ & _ & _ & Hufunc).
  - vm_compute. reflexivity.
  - vm_compute. reflexivity.
  - exact Hufunc.
Defined.

Lemma broadcast_plan_is_numpy_witness :
  let a := NDArray float64 [3; 1] [8; 8] 4096 in
  let b := NDArray float64 [4] [8] 8192 in
  np_broadcast [[3; 1]; [4]] = Some [3; 4]
  ∧ broadcast_arrays [a; b] [3; 4] 2 = ([3; 4], [[8; 0]; [0; 8]])
  ∧ ∃ sv, (broadcast_arrays [a; b] [3; 4] 2).2 !! 1%nat = Some sv
          ∧ length sv = 2%nat
          ∧ ∀ k : nat, (k < 2)%nat →
              ∃ z, reverse sv !! k = Some z
                   ∧ (z = 0
                      ↔ (1 ≤ k)%nat
                        ∨ extent_from_end [4] k = 1
                        ∨ reverse [8] !! k = Some 0).
Proof.
  intros a b.
  destruct (broadcast_plan_is_numpy [a; b]) as (Hshape & _ & Hplan).
  - intros s1 s2 k Hs1 Hs2.
    apply list_elem_of_In in Hs1, Hs2. simpl in Hs1, Hs2.
    destruct Hs1 as [<-|[<-|[]]], Hs2 as [<-|[<-|[]]];
      destruct k as [|[|k]]; vm_compute;
      first [left; reflexivity | right; left; reflexivity
            | right; right; reflexivity].
  - split; [exact Hshape|]. split; [reflexivity|].
    destruct (Hplan 1%nat b eq_refl eq_refl) as (sv & Hsv & Hlen & Hk).
    exists sv. split; [exact Hsv|]. split; [exact Hlen|].
    intros k Hlt. destruct (Hk k Hlt) as (z & Hz & _ & _ & Hiff).
    exists z. split; [exact Hz|exact Hiff].
Defined.

(** Counterexample to C2 as the design document states it.  An operand of
    shape (1,4) on its own: the unified shape is (1,4), and the stride
    planned for its dimension of extent 1 is 0 although the unified extent
    there is not greater.  An operand of shape (3) that repeats one element
    (stride 0): the stride planned for its dimension is 0 although the
    operand declares extent 3 there. *)
Lemma stride_0_without_greater_extent :
  let a := NDArray float64 [1; 4] [32; 8] 4096 in
  let b := NDArray float64 [3] [0] 8192 in
  (np_broadcast [arr_shape a] = Some [1; 4]
   ∧ broadcast_arrays [a] [1; 4] 2 = ([1; 4], [[0; 8]])
   ∧ extent_from_end (arr_shape a) 1 = 1
   ∧ ¬ 1 < extent_from_end [1; 4] 1)
  ∧ (np_broadcast [arr_shape b] = Some [3]
     ∧ broadcast_arrays [b] [3] 1 = ([3], [[0]])
     ∧ extent_from_end (arr_shape b) 0 ≠ 1).
Proof. vm_compute. repeat split; congruence. Qed.

(** C3 against the code: with the output supplied and being the input
    buffer itself, the fully-contiguous kernel (function pointer 11 of the
    bundle) is the one that is selected and runs, on the same address for
    the output and the input.  Lines 99 to 101 of [__call__] hold the
    [TODO] of the check that the docstring of the method announces. *)
Theorem contiguous_selected_despite_overlap :
  let a := NDArray float64 [3] [8] 4096 in
  select_strategy MODEL_ARRAYS_ARE_CONTIG MODEL_ARRAYS_ARE_INNER_CONTIG
    MODEL_ARRAYS_ARE_MIXED_CONTIG MODEL_ARRAYS_ARE_MIXED_STRIDED
    (model_get_arrays_ordering [a]) (is_broadcasting [a; a] [3])
  = FullyContiguous
  ∧ arrays_overlap a a
  ∧ py_calls
      (model_call recording_kernel model_dispatcher [a] (Some a) fresh_state).2
    = [(contig_func model_bundle, KernelArgs [3] [4096; 4096] [[8]; [8]])].
Proof. vm_compute. repeat split; congruence. Qed.

(** The layout flags are computed from the inputs alone (line 73): with a
    supplied output that takes every other element of its buffer, the
    fully-contiguous kernel is selected all the same. *)
Lemma contiguous_selected_for_strided_output :
  let a := NDArray float64 [3] [8] 4096 in
  let o := NDArray float64 [3] [16] 8192 in
  py_calls
    (model_call recording_kernel model_dispatcher [a] (Some o) fresh_state).2
  = [(contig_func model_bundle, KernelArgs [3] [8192; 4096] [[16]; [8]])].
Proof. vm_compute. reflexivity. Qed.

Lemma collapse_replaces_entry_0_witness :
  let out := NDArray float64 [2; 3; 4; 5; 6] [2880; 960; 240; 48; 8] 4096 in
  ex_shape
    (prepare_executor [2; 3; 4; 5; 6] 5 out [out]
       (contig_flag MODEL_ARRAYS_ARE_CONTIG 3 false))
  = [60; 3; 4; 5; 6].
Proof.
  intros out.
  rewrite (collapse_replaces_entry_0 MODEL_ARRAYS_ARE_CONTIG
             MODEL_ARRAYS_ARE_INNER_CONTIG MODEL_ARRAYS_ARE_MIXED_CONTIG
             MODEL_ARRAYS_ARE_MIXED_STRIDED [2; 3; 4; 5; 6] 5 out [out] 3 false).
  - reflexivity.
  - reflexivity.
  - split; [repeat constructor; lia | vm_compute; congruence].
Defined.

Lemma collapse_changes_entry_0_only_witness :
  let bshape := [2; 3; 4; 5; 6] in
  let out := NDArray float64 bshape [2880; 960; 240; 48; 8] 4096 in
  let a := NDArray float64 bshape [2880; 960; 240; 48; 8] 65536 in
  let ex := prepare_executor bshape 5 out [a] true in
  ex_shape ex = [60; 3; 4; 5; 6]
  ∧ (∀ i : nat, (1 ≤ i)%nat → ex_shape ex !! i = bshape !! i)
  ∧ ex_ndim ex = 5%nat
  ∧ length
      (py_calls (run_ufunc recording_kernel 11 bshape 5 out [a] true
                   fresh_state).2)
    = 720%nat.
Proof.
  intros bshape out a ex.
  destruct (collapse_changes_entry_0_only recording_kernel 11 bshape 5 out [a]
              fresh_state)
    as (Hrest & _ & _ & _ & Hndim & _ & Hcalls).
  - reflexivity.
  - lia.
  - split; [repeat constructor; lia | vm_compute; congruence].
  - repeat constructor; simpl; unfold ptr_modulus; lia.
  - split; [reflexivity|]. split; [exact Hrest|]. split; [exact Hndim|].
    rewrite Hcalls.
    + vm_compute. reflexivity.
    + repeat constructor; vm_compute; congruence.
    + reflexivity.
Defined.

Lemma arity_error_before_anything_witness :
  let a := NDArray float64 [3; 4] [32; 8] 4096 in
  let b := NDArray float64 [3; 5] [40; 8] 8192 in
  model_call recording_kernel model_dispatcher [a; b] None fresh_state
  = (Raised (TypeError 1 2), fresh_state).
Proof.
  intros a b.
  apply (arity_error_before_anything recording_kernel model_get_arrays_ordering
           MODEL_ARRAY_C_ORDER MODEL_ARRAYS_ARE_CONTIG
           MODEL_ARRAYS_ARE_INNER_CONTIG MODEL_ARRAYS_ARE_MIXED_CONTIG
           MODEL_ARRAYS_ARE_MIXED_STRIDED model_dispatcher [a; b] None
           fresh_state).
  simpl. lia.
Defined.

Lemma unsupported_signature_changes_nothing_witness :
  let a := NDArray int32 [3] [4] 4096 in
  model_call recording_kernel model_dispatcher [a] None fresh_state
  = (Raised (ValueError_no_signature ["int32"%string]), fresh_state).
Proof.
  intros a.
  apply (unsupported_signature_changes_nothing recording_kernel
           model_get_arrays_ordering MODEL_ARRAY_C_ORDER MODEL_ARRAYS_ARE_CONTIG
           MODEL_ARRAYS_ARE_INNER_CONTIG MODEL_ARRAYS_ARE_MIXED_CONTIG
           MODEL_ARRAYS_ARE_MIXED_STRIDED model_dispatcher [a] None fresh_state
           [3]).
  - reflexivity.
  - reflexivity.
  - vm_compute. reflexivity.
Defined.

Lemma shape_mismatch_raised_witness :
  let a := NDArray float64 [3; 4] [32; 8] 4096 in
  let b := NDArray float64 [3; 5] [40; 8] 8192 in
  model_call recording_kernel model_dispatcher [a] (Some b) fresh_state
  = (Raised ValueError_broadcast, fresh_state).
Proof.
  intros a b.
  apply (shape_mismatch_raised recording_kernel model_get_arrays_ordering
           MODEL_ARRAY_C_ORDER MODEL_ARRAYS_ARE_CONTIG
           MODEL_ARRAYS_ARE_INNER_CONTIG MODEL_ARRAYS_ARE_MIXED_CONTIG
           MODEL_ARRAYS_ARE_MIXED_STRIDED model_dispatcher [a] (Some b)
           fresh_state).
  - reflexivity.
  - exists [3; 4], [3; 5], 0%nat.
    split; [apply list_elem_of_In; left; reflexivity|].
    split; [apply list_elem_of_In; right; left; reflexivity|].
    vm_compute. repeat split; congruence.
Defined.

(** C9 against the code: a call that succeeds returns [None], whether the
    output was allocated by the call or supplied by the caller; the output
    buffer is allocated and handed to the kernel, but not returned. *)
Theorem call_returns_none :
  let a := NDArray float64 [3] [8] 4096 in
  let o := NDArray float64 [3] [8] 8192 in
  let fresh :=
    model_call recording_kernel model_dispatcher [a] None fresh_state in
  let given :=
    model_call recording_kernel model_dispatcher [a] (Some o) fresh_state in
  fresh.1 = Returned PyNone
  ∧ py_allocated fresh.2 = [NDArray float64 [3] [8] 65536]
  ∧ given.1 = Returned PyNone
  ∧ given.1 ≠ Returned (PyArray o).
Proof. vm_compute. repeat split; congruence. Qed.

(** * Further properties of the executor *)

Lemma for_ops_length {A} (n_ops : nat) (f : nat → A → A) (l : list A) :
  length (for_ops n_ops f l) = length l.
Proof.
  unfold for_ops. generalize (seq 0 n_ops) as js. intros js. revert l.
  induction js as [|j js IH]; intros l; simpl; [done|].
  by rewrite IH, length_alter.
Qed.

Section ExecutorExtras.

Context {World : Type}.
Variable call_minifunc : Z → kernel_args → World → World * option string.

Abbreviation run_exec := (run_higher_dimensional call_minifunc).

(** What every step of the executor keeps, relative to the log [log0] it
    started from: the number of data pointers and of stride pointers, and a
    log that extends [log0] by invocations of [fp] on that many pointers. *)
Lemma executor_keeps fp shape n_ops (nd ns : nat) log0 n :
  ∀ d (m : machine World),
    (length (data_pointers m) = nd ∧ length (strides m) = ns
     ∧ ∃ made, calls m = log0 ++ ((fp,.) <$> made)
               ∧ Forall (λ c, length (k_data c) = nd
                              ∧ length (k_strides c) = ns) made) →
    let m' := (run_exec fp shape n n_ops d m).2 in
    length (data_pointers m') = nd ∧ length (strides m') = ns
    ∧ ∃ made, calls m' = log0 ++ ((fp,.) <$> made)
              ∧ Forall (λ c, length (k_data c) = nd
                             ∧ length (k_strides c) = ns) made.
Proof.
  assert (Hleaf : ∀ d (m : machine World),
    (length (data_pointers m) = nd ∧ length (strides m) = ns
     ∧ ∃ made, calls m = log0 ++ ((fp,.) <$> made)
               ∧ Forall (λ c, length (k_data c) = nd
                              ∧ length (k_strides c) = ns) made) →
    let m' := (run_leaf call_minifunc fp shape n_ops d m).2 in
    length (data_pointers m') = nd ∧ length (strides m') = ns
    ∧ ∃ made, calls m' = log0 ++ ((fp,.) <$> made)
              ∧ Forall (λ c, length (k_data c) = nd
                             ∧ length (k_strides c) = ns) made).
  { intros d m (Hd & Hs & made & Hlog & Hmade). unfold run_leaf. cbv zeta.
    set (m1 := if decide (d = 0%nat) then m else offset_strides n_ops d m).
    assert (H1 : length (data_pointers m1) = nd ∧ length (strides m1) = ns
                 ∧ calls m1 = calls m).
    { subst m1. destruct (decide (d = 0%nat)); [done|].
      unfold offset_strides. simpl. by rewrite for_ops_length. }
    destruct H1 as (Hd1 & Hs1 & Hc1).
    destruct (call_minifunc fp _ (mem m1)) as [w [err|]]; simpl.
    - split; [done|]. split; [done|].
      exists (made ++ [KernelArgs (drop d shape) (data_pointers m1)
                         (sp_view <$> strides m1)]).
      rewrite Hc1, Hlog, fmap_app, app_assoc. split; [done|].
      apply Forall_app. split; [done|]. repeat constructor; simpl; [done|].
      by rewrite length_fmap.
    - assert (Hlog' : ∃ made',
        calls m1 ++ [(fp, KernelArgs (drop d shape) (data_pointers m1)
                            (sp_view <$> strides m1))]
        = log0 ++ ((fp,.) <$> made')
        ∧ Forall (λ c, length (k_data c) = nd ∧ length (k_strides c) = ns)
            made').
      { exists (made ++ [KernelArgs (drop d shape) (data_pointers m1)
                           (sp_view <$> strides m1)]).
        rewrite Hc1, Hlog, fmap_app, app_assoc. split; [done|].
        apply Forall_app. split; [done|]. repeat constructor; simpl; [done|].
        by rewrite length_fmap. }
      destruct (decide (d = 0%nat)); simpl; [done|].
      by rewrite for_ops_length. }
  induction n as [|n IH]; intros d m Hm; [by apply Hleaf|].
  destruct n as [|[|k]]; [by apply Hleaf..|].
  cbv zeta. rewrite run_higher_dimensional_step, for_int_range_eq.
  set (body := λ mi : machine World,
    match run_exec fp shape (S (S k)) n_ops (S d) mi with
    | (Returned _, mi') => (Returned (), advance_pointers n_ops d mi')
    | (Raised e, mi') => (Raised e, mi')
    | (Overflowed, mi') => (Overflowed, mi')
    end).
  assert (Hbody : ∀ mi,
    (length (data_pointers mi) = nd ∧ length (strides mi) = ns
     ∧ ∃ made, calls mi = log0 ++ ((fp,.) <$> made)
               ∧ Forall (λ c, length (k_data c) = nd
                              ∧ length (k_strides c) = ns) made) →
    length (data_pointers (body mi).2) = nd
    ∧ length (strides (body mi).2) = ns
    ∧ ∃ made, calls (body mi).2 = log0 ++ ((fp,.) <$> made)
              ∧ Forall (λ c, length (k_data c) = nd
                             ∧ length (k_strides c) = ns) made).
  { intros mi Hmi. specialize (IH (S d) mi Hmi). cbv zeta in IH.
    unfold body.
    destruct (run_exec fp shape (S (S k)) n_ops (S d) mi) as [[u|e|] mi'];
      simpl in *; [|done..].
    by rewrite for_ops_length. }
  assert (Hloop : ∀ c mi,
    (length (data_pointers mi) = nd ∧ length (strides mi) = ns
     ∧ ∃ made, calls mi = log0 ++ ((fp,.) <$> made)
               ∧ Forall (λ c, length (k_data c) = nd
                              ∧ length (k_strides c) = ns) made) →
    length (data_pointers (for_range c body mi).2) = nd
    ∧ length (strides (for_range c body mi).2) = ns
    ∧ ∃ made, calls (for_range c body mi).2 = log0 ++ ((fp,.) <$> made)
              ∧ Forall (λ c, length (k_data c) = nd
                             ∧ length (k_strides c) = ns) made).
  { induction c as [|c IHc]; intros mi Hmi; [done|].
    cbn [for_range]. specialize (Hbody mi Hmi).
    destruct (body mi) as [[u|e|] mi']; cbn [snd] in *; [by apply IHc|done..]. }
  generalize (Z.to_nat (Z.min (shape_at shape d) (int_max + 1))).
  intros c. specialize (Hloop c m Hm).
  destruct (for_range c body m) as [[u|e|] m1]; cbn [fst snd] in *; [|done..].
  case_decide; [|done].
  unfold rewind_pointers. cbn [snd data_pointers strides calls].
  by rewrite for_ops_length.
Qed.

End ExecutorExtras.

Section ExecutorFacts.

Context {World : Type}.
Variable call_minifunc : Z → kernel_args → World → World * option string.

Abbreviation exec := (run_higher_dimensional call_minifunc).

Lemma for_range_raised {St : Type} (n : nat) (body : St → outcome () * St) :
  ∀ s e s', for_range n body s = (Raised e, s') →
            ∃ s0, body s0 = (Raised e, s').
Proof.
  induction n as [|n IH]; intros s e s'; simpl; [done|].
  destruct (body s) as [[u|e0|] s0] eqn:Hb; [apply IH| |done].
  intros [= <- <-]. by exists s.
Qed.

(** X1.  When the executor returns, at any depth, the data pointers and the
    stride pointers are exactly as they were on entry: every advance has
    been rewound and every stride offset reset. *)
Theorem executor_restores_scratch fp shape n_ops n d (m : machine World) :
  exec_wf shape n_ops (d + n) m →
  (exec fp shape n n_ops d m).1 = Returned () →
  data_pointers (exec fp shape n n_ops d m).2 = data_pointers m
  ∧ strides (exec fp shape n n_ops d m).2 = strides m.
Proof.
  intros Hwf Hret.
  destruct (exec fp shape n n_ops d m) as [r m'] eqn:Hrun.
  cbn [fst snd] in *. subst r. by eapply executor_restores.
Qed.

(** X2.  An exception that leaves the executor, from any depth and on any
    arguments, is the error of a kernel invocation: that invocation is the
    last one in the log, and the memory is as that kernel call left it. *)
Theorem executor_exception_is_kernel_error fp shape n_ops n :
  ∀ d (m m' : machine World) e,
    exec fp shape n n_ops d m = (Raised e, m') →
    ∃ err c w0,
      e = KernelError err
      ∧ last (calls m') = Some (fp, c)
      ∧ call_minifunc fp c w0 = (mem m', Some err).
Proof.
  assert (Hleaf : ∀ d (m m' : machine World) e,
    run_leaf call_minifunc fp shape n_ops d m = (Raised e, m') →
    ∃ err c w0,
      e = KernelError err ∧ last (calls m') = Some (fp, c)
      ∧ call_minifunc fp c w0 = (mem m', Some err)).
  { intros d m m' e. unfold run_leaf. cbv zeta.
    destruct (call_minifunc fp _ _) as [w [err|]] eqn:Hcall; [|done].
    intros [= <- <-]. eexists err, _, _. simpl.
    split; [done|]. split; [apply last_snoc|exact Hcall]. }
  induction n as [|n IH]; intros d m m' e; [apply Hleaf|].
  destruct n as [|[|k]]; [apply Hleaf..|].
  rewrite run_higher_dimensional_step, for_int_range_eq.
  destruct (for_range _ _ m) as [[u|e0|] m1] eqn:Hloop; cbn [fst snd];
    [by case_decide| |done].
  intros [= <- <-].
  apply for_range_raised in Hloop as [s0 Hbody]. cbv beta in Hbody.
  destruct (exec fp shape (S (S k)) n_ops (S d) s0) as [[u|e2|] s2] eqn:Hrec;
    [done| |done].
  injection Hbody as <- <-. by eapply IH.
Qed.

(** X3.  On any arguments and with any outcome, the executor only appends
    to the log of kernel invocations, every invocation it adds goes through
    the function pointer it was given and passes as many data pointers and
    stride vectors as the scratch arrays hold, and the scratch arrays keep
    their lengths. *)
Theorem executor_log_append_only fp shape n_ops n d (m : machine World) :
  let m' := (exec fp shape n n_ops d m).2 in
  length (data_pointers m') = length (data_pointers m)
  ∧ length (strides m') = length (strides m)
  ∧ ∃ made,
      calls m' = calls m ++ ((fp,.) <$> made)
      ∧ Forall (λ c, length (k_data c) = length (data_pointers m)
                     ∧ length (k_strides c) = length (strides m)) made.
Proof.
  apply (executor_keeps call_minifunc fp shape n_ops
           (length (data_pointers m)) (length (strides m)) (calls m)).
  split; [done|]. split; [done|]. exists []. by rewrite app_nil_r.
Qed.

(** X4.  When one of the enclosing dimensions has extent 0 and the extents
    of the enclosing dimensions outside it are within the range of the
    [int] loop counter, the executor returns without a single kernel
    invocation and leaves the machine as it found it. *)
Theorem empty_dimension_runs_no_kernel fp shape n_ops n d (m : machine World)
    (i : nat) :
  exec_wf shape n_ops (d + n) m →
  (i < n - 2)%nat → shape !! (d + i)%nat = Some 0 →
  Forall (λ e, e ≤ int_max) (take i (drop d shape)) →
  exec fp shape n n_ops d m = (Returned (), m).
Proof.
  revert n d m. induction i as [|i IH]; intros n d m Hwf Hi Hz Hint.
  - destruct n as [|[|[|k]]]; [lia..|].
    pose proof Hwf as (Hshape & Hdps & Hstr & Hsp & Hrange & Hnn).
    assert (Hoff0 : Forall (λ sp, sp_off sp = 0%nat) (strides m)).
    { eapply Forall_impl; [exact Hsp|]. by intros ? [??]. }
    rewrite Nat.add_0_r in Hz.
    assert (He : shape_at shape d = 0) by (unfold shape_at; by rewrite Hz).
    rewrite run_higher_dimensional_step.
    rewrite for_int_range_bounded by (rewrite He; pose proof int_max_pos; lia).
    rewrite He. change (Z.to_nat 0) with 0%nat. cbn [for_range].
    destruct m as [dps strs w log]. cbn [data_pointers strides] in *.
    pose proof (rewind_pointers_shifted n_ops d shape dps strs w log) as Hrew.
    rewrite He, shifted_0 in Hrew by (rewrite ?length_fmap; first [lia|done]).
    by rewrite Hrew.
  - destruct n as [|[|[|k]]]; [lia..|].
    pose proof Hwf as (Hshape & Hdps & Hstr & Hsp & Hrange & Hnn).
    assert (Hoff0 : Forall (λ sp, sp_off sp = 0%nat) (strides m)).
    { eapply Forall_impl; [exact Hsp|]. by intros ? [??]. }
    destruct (lookup_lt_is_Some_2 shape d) as [e He]; [lia|].
    assert (0 ≤ e) as Hge.
    { rewrite Forall_lookup in Hnn. by eapply Hnn. }
    rewrite (drop_S _ _ _ He) in Hint. cbn [take] in Hint.
    apply Forall_cons in Hint as [Hle Hint].
    assert (Hat : shape_at shape d = e) by (unfold shape_at; by rewrite He).
    rewrite run_higher_dimensional_step.
    rewrite for_int_range_bounded by (by rewrite Hat).
    assert (Hloop : ∀ c i0 (w : World) log,
      for_range c
        (λ mi,
           match exec fp shape (S (S k)) n_ops (S d) mi with
           | (Returned _, mi') => (Returned (), advance_pointers n_ops d mi')
           | (Raised e, mi') => (Raised e, mi')
           | (Overflowed, mi') => (Overflowed, mi')
           end)
        (Machine (shifted (data_pointers m) (sp_vec <$> strides m) d i0)
           (strides m) w log)
      = (Returned (),
         Machine
           (shifted (data_pointers m) (sp_vec <$> strides m) d
              (i0 + Z.of_nat c))
           (strides m) w log)).
    { induction c as [|c IHc]; intros i0 w log.
      - simpl. by rewrite Z.add_0_r.
      - cbn [for_range]. rewrite (IH (S (S k)) (S d)).
        + rewrite advance_pointers_shifted by done.
          rewrite IHc. do 3 f_equal. lia.
        + replace (S d + S (S k))%nat with (d + S (S (S k)))%nat by lia.
          by apply exec_wf_shifted.
        + lia.
        + by replace (S d + i)%nat with (d + S i)%nat by lia.
        + done. }
    destruct m as [dps strs w log]. cbn [data_pointers strides] in *.
    specialize (Hloop (Z.to_nat (shape_at shape d)) 0 w log).
    rewrite shifted_0 in Hloop by (rewrite ?length_fmap; first [lia|done]).
    rewrite Hloop, Z.add_0_l, Z2Nat.id by (by rewrite Hat).
    by rewrite rewind_pointers_shifted.
Qed.

Lemma executor_log_from_start fp shape ndim dps svecs (w : World) log :
  length shape = ndim → length svecs = length dps →
  Forall (λ sv, length sv = ndim) svecs →
  Forall in_ptr_range dps → Forall (λ e, 0 ≤ e) shape →
  Forall (λ e, e ≤ int_max) (take (ndim - 2) shape) →
  ∃ made,
    calls (exec fp shape ndim (length dps) 0
             (Machine dps ((λ v, StridePtr v 0) <$> svecs) w log)).2
    = log ++ ((fp,.) <$> made)
    ∧ made = take (length made) (leaf_invocations shape dps svecs ndim 0)
    ∧ ((∀ c w0, (call_minifunc fp c w0).2 = None) →
       made = leaf_invocations shape dps svecs ndim 0).
Proof.
  intros Hshape Hlen Hsv Hrange Hnn Hint.
  rewrite run_higher_dimensional_result; [|by apply exec_wf_start|done].
  unfold executor_result. cbn [data_pointers strides mem calls].
  rewrite start_strides_vec.
  pose proof (invoke_all_no_failure call_minifunc fp
    (leaf_invocations shape dps svecs ndim 0) w) as Hok.
  destruct (invoke_all _ fp (leaf_invocations shape dps svecs ndim 0) w)
    as [[w' made] r] eqn:Hinv.
  apply invoke_all_prefix in Hinv as [Hpre _].
  exists made. split; [by destruct r as [[??]|]|]. split; [done|].
  intros Hnofail. by destruct (Hok Hnofail) as [_ ?].
Qed.

(** X5.  Every kernel invocation of a nest of at least two dimensions is
    handed the two innermost extents and, for each operand, its two
    innermost strides: the stride pointers are offset past the enclosing
    dimensions for the call. *)
Theorem leaf_sees_innermost_dimensions fp shape ndim dps svecs (w : World) :
  length shape = ndim → length svecs = length dps →
  Forall (λ sv, length sv = ndim) svecs →
  Forall in_ptr_range dps → Forall (λ e, 0 ≤ e) shape →
  ∀ entry,
    entry ∈ calls (exec fp shape ndim (length dps) 0
                     (Machine dps ((λ v, StridePtr v 0) <$> svecs) w [])).2 →
    k_shape entry.2 = drop (ndim - 2) shape
    ∧ k_strides entry.2 = drop (ndim - 2) <$> svecs
    ∧ (2 ≤ ndim → length (k_shape entry.2) = 2
                  ∧ Forall (λ sv, length sv = 2) (k_strides entry.2))%nat.
Proof.
  intros Hshape Hlen Hsv Hrange Hnn entry Hin.
  destruct (exec fp shape ndim (length dps) 0 _) as [r m'] eqn:Hrun.
  apply executor_strides in Hrun as [_ (made & Hlog & Hmade)].
  2:{ split; cbn [strides]; [by rewrite length_fmap|].
      by apply Forall_fmap, Forall_true. }
  cbn [snd calls strides] in *. rewrite Hlog in Hin.
  apply list_elem_of_fmap in Hin as (c & -> & Hc).
  rewrite Forall_forall in Hmade. destruct (Hmade c Hc) as [Hks Hkt].
  rewrite start_strides_vec in Hkt. cbn [snd].
  rewrite Hks, Hkt. split; [done|]. split; [done|].
  intros Hnd. split; [rewrite length_drop; lia|].
  apply Forall_fmap. eapply Forall_impl; [exact Hsv|].
  intros sv Hl. simpl in *. rewrite length_drop. lia.
Qed.

(** X6.  When the extents of the enclosing dimensions are within the range
    of the [int] loop counter and the kernel does not fail, the number of
    kernel invocations is the product of the extents of the enclosing
    dimensions (1 when there is none). *)
Theorem invocation_count fp shape ndim dps svecs (w : World) :
  length shape = ndim → length svecs = length dps →
  Forall (λ sv, length sv = ndim) svecs →
  Forall in_ptr_range dps → Forall (λ e, 0 ≤ e) shape →
  Forall (λ e, e ≤ int_max) (take (ndim - 2) shape) →
  (∀ c w0, (call_minifunc fp c w0).2 = None) →
  Z.of_nat
    (length
       (calls (exec fp shape ndim (length dps) 0
                 (Machine dps ((λ v, StridePtr v 0) <$> svecs) w [])).2))
  = foldr Z.mul 1 (take (ndim - 2) shape).
Proof.
  intros Hshape Hlen Hsv Hrange Hnn Hint Hok.
  destruct (executor_log_from_start fp shape ndim dps svecs w [])
    as (made & Hlog & _ & Hall); [done..|].
  rewrite Hlog, (Hall Hok). simpl.
  unfold leaf_invocations. rewrite !length_fmap.
  apply index_space_length. by apply Forall_take.
Qed.

End ExecutorFacts.

(** * Further properties of the dispatcher *)

Lemma wrap_intp_range a : - 2 ^ 63 ≤ wrap_intp a ≤ intp_max.
Proof.
  unfold wrap_intp, intp_max.
  pose proof (Z.mod_pos_bound (a + 2 ^ 63) ptr_modulus ptr_modulus_pos) as H.
  unfold ptr_modulus in *. lia.
Qed.

Lemma wrap_intp_mul_l a b : wrap_intp (wrap_intp a * b) = wrap_intp (a * b).
Proof.
  unfold wrap_intp. f_equal.
  rewrite <- (Zplus_mod_idemp_l (_ * b)), <- (Zplus_mod_idemp_l (a * b)).
  f_equal. f_equal.
  rewrite <- Zmult_mod_idemp_l.
  rewrite <- (Zmult_mod_idemp_l a b). f_equal. f_equal.
  rewrite Zminus_mod_idemp_l. f_equal. lia.
Qed.

Lemma intp_product_wraps (a e : Z) (l : list Z) :
  foldl intp_mul a (e :: l) = wrap_intp (a * foldr Z.mul 1 (e :: l)).
Proof.
  revert a e. induction l as [|e' l IH]; intros a e.
  - simpl. unfold intp_mul. by rewrite Z.mul_1_r.
  - change (foldl intp_mul a (e :: e' :: l))
      with (foldl intp_mul (intp_mul a e) (e' :: l)).
    rewrite IH. unfold intp_mul. rewrite wrap_intp_mul_l.
    f_equal. simpl. lia.
Qed.

(** X7.  On any shape of [ndim > 3] extents, fitting an array or not, the
    collapsing loop writes entry 0 only, and what it writes is the product
    of the extent at index 0 with the extents from index 3 on, reduced to
    the signed 64-bit range of [npy_intp]. *)
Theorem collapse_wraps_in_npy_intp (shape : list Z) (ndim : nat) :
  length shape = ndim → (3 < ndim)%nat →
  let product := shape_at shape 0 * foldr Z.mul 1 (drop 3 shape) in
  collapse_shape true ndim shape = <[0%nat := wrap_intp product]> shape
  ∧ - 2 ^ 63 ≤ wrap_intp product ≤ intp_max
  ∧ (wrap_intp product - product) mod 2 ^ 64 = 0.
Proof.
  intros Hlen Hnd product. split; [|split; [apply wrap_intp_range|]].
  - unfold collapse_shape. simpl. rewrite bool_decide_eq_true_2 by done.
    unfold collapse_loop. rewrite collapse_loop_prefix by lia.
    rewrite take_ge by (rewrite length_drop; lia).
    destruct (drop 3 shape) as [|e l] eqn:Hd.
    { apply (f_equal length) in Hd. rewrite length_drop in Hd.
      simpl in Hd. lia. }
    subst product. by rewrite intp_product_wraps.
  - unfold wrap_intp, ptr_modulus.
    rewrite (Z.mod_eq (product + 2 ^ 63)) by lia.
    replace (product + 2 ^ 63 - 2 ^ 64 * ((product + 2 ^ 63) / 2 ^ 64)
             - 2 ^ 63 - product)
      with (- ((product + 2 ^ 63) / 2 ^ 64) * 2 ^ 64) by lia.
    apply Z_mod_mult.
Qed.

Lemma collapse_wraps_in_npy_intp_witness :
  collapse_shape true 4 [2 ^ 62; 1; 1; 4] = [0; 1; 1; 4].
Proof.
  destruct (collapse_wraps_in_npy_intp [2 ^ 62; 1; 1; 4] 4) as [-> _].
  - reflexivity.
  - lia.
  - vm_compute. reflexivity.
Defined.

Section DispatcherFacts.

Context {World : Type}.
Variable call_minifunc : Z → kernel_args → World → World * option string.
Variable get_arrays_ordering : list ndarray → Z.
Variables ARRAY_C_ORDER ARRAYS_ARE_CONTIG ARRAYS_ARE_INNER_CONTIG : Z.
Variables ARRAYS_ARE_MIXED_CONTIG ARRAYS_ARE_MIXED_STRIDED : Z.

Abbreviation ufunc_call :=
  (UFuncDispatcher_call call_minifunc get_arrays_ordering ARRAY_C_ORDER
     ARRAYS_ARE_CONTIG ARRAYS_ARE_INNER_CONTIG ARRAYS_ARE_MIXED_CONTIG
     ARRAYS_ARE_MIXED_STRIDED).
Abbreviation chosen_strategy :=
  (select_strategy ARRAYS_ARE_CONTIG ARRAYS_ARE_INNER_CONTIG
     ARRAYS_ARE_MIXED_CONTIG ARRAYS_ARE_MIXED_STRIDED).

(** What [run_ufunc] does to the state on any arguments. *)
Lemma run_ufunc_keeps fp bshape ndim out arrays contig (st : py_state) :
  let res := run_ufunc call_minifunc fp bshape ndim out arrays contig st in
  py_allocated res.2 = py_allocated st
  ∧ py_next res.2 = py_next st
  ∧ py_scratch res.2 = py_scratch st
  ∧ (∀ e, res.1 = Raised e → ∃ err, e = KernelError err).
Proof using Type.
  unfold run_ufunc. cbv zeta.
  destruct (run_higher_dimensional _ _ _ _ _ _ _) as [[u|e|] m'] eqn:Hrun;
    cbn [fst snd py_allocated py_next py_scratch].
  - repeat split; try done; lia.
  - apply executor_raises_kernel_errors in Hrun as [err ->].
    repeat split; try done; [lia|]. intros e [= <-]. by exists err.
  - repeat split; try done; lia.
Qed.

(** The two innermost extents are not touched by the collapsing step. *)
Lemma collapse_shape_inner contig (shape : list Z) :
  drop (length shape - 2) (collapse_shape contig (length shape) shape)
  = drop (length shape - 2) shape.
Proof using Type.
  unfold collapse_shape. destruct contig; simpl; [|done].
  case_bool_decide as Hnd; [|done].
  unfold collapse_loop. rewrite collapse_loop_prefix by lia.
  apply drop_insert_lt. lia.
Qed.

(** The kernel invocations of [run_ufunc]. *)
Lemma run_ufunc_invocations fp bshape out arrays contig (st : py_state) :
  let res :=
    run_ufunc call_minifunc fp bshape (length bshape) out arrays contig st in
  let inner := (length bshape - 2)%nat in
  ∃ made,
    py_calls res.2 = py_calls st ++ ((fp,.) <$> made)
    ∧ Forall (λ c, k_shape c = drop inner bshape
                   ∧ k_strides c
                     = drop inner <$> (plan_strides bshape <$> (out :: arrays))
                   ∧ length (k_data c) = S (length arrays)) made
    ∧ ∀ c, head made = Some c → k_data c = arr_data <$> (out :: arrays).
Proof using Type.
  intros res inner. subst res inner. unfold run_ufunc. cbv zeta.
  set (ex := prepare_executor bshape (length bshape) out arrays contig).
  set (m := Machine (ex_data_pointers ex) (ex_strides ex) (py_mem st)
              (py_calls st)).
  pose proof (executor_first_call call_minifunc fp (ex_shape ex) (ex_n_ops ex)
                (ex_ndim ex) 0 m) as Hfirst.
  pose proof (executor_keeps call_minifunc fp (ex_shape ex) (ex_n_ops ex)
                (length (ex_data_pointers ex)) (length (ex_strides ex))
                (py_calls st) (ex_ndim ex) 0 m) as Hkeep.
  cbv zeta in Hkeep.
  destruct (run_higher_dimensional call_minifunc fp (ex_shape ex) (ex_ndim ex)
              (ex_n_ops ex) 0 m) as [r m'] eqn:Hrun.
  cbn [snd] in Hfirst, Hkeep.
  pose proof (executor_strides call_minifunc fp (ex_shape ex) (ex_n_ops ex)
                (ex_ndim ex) 0 m r m'
                (prepare_executor_strides_wf bshape (length bshape) out arrays
                   contig (py_mem st) (py_calls st)) Hrun)
    as [_ (made & Hlog & Hmade)].
  destruct Hkeep as (_ & _ & made' & Hlog' & Hlen).
  { split; [done|]. split; [done|]. exists []. by rewrite app_nil_r. }
  assert (made' = made) as ->.
  { cbn [calls] in Hlog. rewrite Hlog in Hlog'. apply app_inv_head in Hlog'.
    by apply (inj (fmap (fp,.))) in Hlog'. }
  exists made. split; [by destruct r|]. split.
  - apply Forall_and. split; [|apply Forall_and; split].
    + eapply Forall_impl; [exact Hmade|]. intros c [Hs _]. rewrite Hs.
      apply collapse_shape_inner.
    + eapply Forall_impl; [exact Hmade|]. intros c [_ Hs]. rewrite Hs.
      subst m ex. cbn [strides].
      by rewrite ex_strides_prepare, start_strides_vec.
    + eapply Forall_impl; [exact Hlen|]. intros c [Hd _]. rewrite Hd.
      subst ex. by rewrite ex_data_pointers_prepare, length_fmap.
  - intros c Hc. by rewrite (Hfirst made c Hlog Hc).
Qed.


(** X10.  A call allocates at most one array, and none at all when the
    caller supplies the output or when the call fails before a kernel
    bundle is found. *)
Theorem call_allocates_at_most_once self args out (st : py_state) :
  let res := ufunc_call self args out st in
  ∃ fresh,
    py_allocated res.2 = py_allocated st ++ fresh
    ∧ (length fresh ≤ 1)%nat
    ∧ (is_Some out → fresh = [])
    ∧ ((∃ e, res.1 = Raised e ∧ ∀ err, e ≠ KernelError err) → fresh = []).
Proof.
  intros res. subst res. unfold UFuncDispatcher_call.
  assert (Hnone : ∀ st' : py_state (World := World),
    py_allocated st' = py_allocated st →
    ∃ fresh : list ndarray,
      py_allocated st' = py_allocated st ++ fresh
      ∧ (length fresh ≤ 1)%nat ∧ fresh = []).
  { intros st' Hst'. exists []. rewrite app_nil_r. simpl.
    split; [done|]. split; [lia|done]. }
  case_decide.
  { destruct (Hnone st eq_refl) as (fresh & ? & ? & ?). by exists fresh. }
  destruct (np_broadcast _) as [bshape|].
  2:{ destruct (Hnone st eq_refl) as (fresh & ? & ? & ?). by exists fresh. }
  destruct (functions self !! _) as [bundle|].
  2:{ destruct (Hnone st eq_refl) as (fresh & ? & ? & ?). by exists fresh. }
  destruct out as [o|]; simpl.
  - match goal with
    | |- context [run_ufunc _ ?fp ?b ?n ?o ?a ?c ?s] =>
        pose proof (run_ufunc_keeps fp b n o a c s) as (Ha & _)
    end.
    destruct (Hnone _ Ha) as (fresh & ? & ? & ?). by exists fresh.
  - match goal with
    | |- context [run_ufunc _ ?fp ?b ?n ?o ?a ?c ?s] =>
        pose proof (run_ufunc_keeps fp b n o a c s) as (Ha & _ & _ & Hr)
    end.
    eexists. split; [rewrite Ha; simpl; reflexivity|].
    split; [simpl; lia|]. split; [by intros [??]|].
    intros (e & He & Hnk). exfalso.
    destruct (Hr e He) as [err ->]. by eapply Hnk.
Qed.

(** X11.  When no output is supplied and a kernel bundle is found, the one
    array the call allocates has the unified broadcast shape, the result
    dtype of the bundle, and row-major strides when the layout flags have
    [ARRAY_C_ORDER], column-major strides otherwise. *)
Theorem allocated_output_buffer self args (st : py_state) bshape bundle :
  length args = nin self →
  np_broadcast (arr_shape <$> args) = Some bshape →
  functions self !! (arr_dtype <$> args, length bshape) = Some bundle →
  let dt := result_dtype bundle in
  py_allocated (ufunc_call self args None st).2
  = py_allocated st
    ++ [NDArray dt bshape
          (if decide (Z.land (get_arrays_ordering args) ARRAY_C_ORDER ≠ 0)
           then c_strides (dt_itemsize dt) bshape
           else f_strides (dt_itemsize dt) bshape)
          (py_next st)].
Proof.
  intros Hn Hb Hf dt.
  rewrite (dispatch_runs_ufunc call_minifunc get_arrays_ordering ARRAY_C_ORDER
             ARRAYS_ARE_CONTIG ARRAYS_ARE_INNER_CONTIG ARRAYS_ARE_MIXED_CONTIG
             ARRAYS_ARE_MIXED_STRIDED self args None st bshape bundle)
    by (simpl; rewrite ?app_nil_r; done).
  cbv zeta.
  match goal with
  | |- context [run_ufunc _ ?fp ?b ?n ?o ?a ?c ?s] =>
      pose proof (run_ufunc_keeps fp b n o a c s) as (Ha & _)
  end.
  rewrite Ha. simpl. by case_decide.
Qed.

(** X12.  Every kernel invocation a call makes goes through the function
    pointer of the selected strategy.  It is handed the two innermost
    extents of the unified shape, the two innermost planned strides of the
    output and then of each input in order, and one data pointer per
    operand.  The first invocation of the call is handed the data pointers
    of the operands themselves, the output first.  The output is the array
    the caller supplied or else the one the call allocated.  What the log
    held before the call is kept. *)
Theorem call_invokes_selected_kernel self args out (st : py_state) bshape
    bundle :
  length args = nin self →
  np_broadcast (arr_shape <$> (args ++ from_option (λ o, [o]) [] out))
  = Some bshape →
  functions self !! (arr_dtype <$> args, length bshape) = Some bundle →
  let order := get_arrays_ordering args in
  let fp :=
    strategy_func bundle
      (chosen_strategy order
         (is_broadcasting (args ++ from_option (λ o, [o]) [] out) bshape)) in
  let target :=
    match out with
    | Some o => o
    | None =>
        (np_empty bshape (result_dtype bundle)
           (if decide (Z.land order ARRAY_C_ORDER ≠ 0) then OrderC else OrderF)
           st).1
    end in
  let inner := (length bshape - 2)%nat in
  ∃ made,
    py_calls (ufunc_call self args out st).2
    = py_calls st ++ ((fp,.) <$> made)
    ∧ Forall (λ c, k_shape c = drop inner bshape
                   ∧ k_strides c
                     = drop inner <$> (plan_strides bshape <$> (target :: args))
                   ∧ length (k_data c) = S (nin self)) made
    ∧ ∀ c, head made = Some c → k_data c = arr_data <$> (target :: args).
Proof.
  intros Hn Hb Hf order fp target inner.
  rewrite (dispatch_runs_ufunc call_minifunc get_arrays_ordering ARRAY_C_ORDER
             ARRAYS_ARE_CONTIG ARRAYS_ARE_INNER_CONTIG ARRAYS_ARE_MIXED_CONTIG
             ARRAYS_ARE_MIXED_STRIDED self args out st bshape bundle)
    by done.
  cbv zeta. fold order. fold fp. rewrite <- Hn.
  destruct out as [o|]; cbn [fst snd]; [apply run_ufunc_invocations|].
  destruct (run_ufunc_invocations fp bshape target args
              (contig_flag ARRAYS_ARE_CONTIG order
                 (is_broadcasting (args ++ from_option (λ o, [o]) [] None)
                    bshape))
              (np_empty bshape (result_dtype bundle)
                 (if decide (Z.land order ARRAY_C_ORDER ≠ 0)
                  then OrderC else OrderF) st).2)
    as (made & Hlog & Hmade & Hfirst).
  exists made. split; [exact Hlog|]. by split.
Qed.

End DispatcherFacts.

Section RunUfuncFacts.

Context {World : Type}.
Variable call_minifunc : Z → kernel_args → World → World * option string.

Lemma run_leaf_start fp shape n_ops dps svecs (w : World) log :
  run_leaf call_minifunc fp shape n_ops 0
    (Machine dps ((λ v, StridePtr v 0) <$> svecs) w log)
  = let c := KernelArgs shape dps svecs in
    (match (call_minifunc fp c w).2 with
     | Some err => Raised (KernelError err)
     | None => Returned ()
     end,
     Machine dps ((λ v, StridePtr v 0) <$> svecs) (call_minifunc fp c w).1
       (log ++ [(fp, c)])).
Proof.
  unfold run_leaf. cbv zeta. rewrite !decide_True by done.
  cbn [data_pointers strides mem calls].
  assert (Hview : sp_view <$> ((λ v, StridePtr v 0) <$> svecs) = svecs).
  { rewrite <- list_fmap_compose. apply list_fmap_id. }
  rewrite Hview. change (drop 0 shape) with shape.
  by destruct (call_minifunc fp _ w) as [w' [err|]].
Qed.

(** X13.  On a broadcast of at most two dimensions [run_ufunc] invokes the
    kernel exactly once, on the unified shape, the data pointers of the
    output and the inputs in that order and their planned strides, whatever
    the shape and the arrays; it returns [None] or raises the error of that
    one invocation. *)
Theorem low_dimensional_single_invocation fp bshape ndim out arrays contig
    (st : py_state) :
  (ndim ≤ 2)%nat →
  let c :=
    KernelArgs bshape (arr_data <$> (out :: arrays))
      (plan_strides bshape <$> (out :: arrays)) in
  run_ufunc call_minifunc fp bshape ndim out arrays contig st
  = (match (call_minifunc fp c (py_mem st)).2 with
     | None => Returned PyNone
     | Some err => Raised (KernelError err)
     end,
     PyState (call_minifunc fp c (py_mem st)).1 (py_calls st ++ [(fp, c)])
       (py_allocated st) (py_next st) (py_scratch st)).
Proof.
  intros Hnd c. unfold run_ufunc. cbv zeta.
  rewrite ex_shape_prepare, ex_strides_prepare, ex_data_pointers_prepare.
  unfold collapse_shape.
  rewrite (bool_decide_eq_false_2 (3 < ndim)%nat) by lia.
  rewrite andb_false_r.
  assert (Hrun : ∀ m : machine World,
    run_higher_dimensional call_minifunc fp bshape ndim
      (ex_n_ops (prepare_executor bshape ndim out arrays contig)) 0 m
    = run_leaf call_minifunc fp bshape
        (ex_n_ops (prepare_executor bshape ndim out arrays contig)) 0 m).
  { intros m. by destruct ndim as [|[|[|?]]]; [..|lia]. }
  change (ex_ndim (prepare_executor bshape ndim out arrays contig)) with ndim.
  rewrite Hrun, run_leaf_start. subst c. cbv zeta.
  destruct (call_minifunc fp _ (py_mem st)) as [w [err|]]; simpl;
    do 2 f_equal; lia.
Qed.

Lemma run_ufunc_calls_no_failure fp bshape ndim out arrays contig
    (st : py_state) :
  length bshape = ndim → shape_fits bshape →
  Forall (λ a, in_ptr_range (arr_data a)) (out :: arrays) →
  int_extents (collapse_shape contig ndim bshape) 0 ndim →
  (∀ c w0, (call_minifunc fp c w0).2 = None) →
  py_calls (run_ufunc call_minifunc fp bshape ndim out arrays contig st).2
  = py_calls st
    ++ ((fp,.)
          <$> leaf_invocations (collapse_shape contig ndim bshape)
                (arr_data <$> (out :: arrays))
                (plan_strides bshape <$> (out :: arrays)) ndim 0).
Proof.
  intros Hlen Hfit Hptr Hint Hok. rewrite run_ufunc_result by done. cbv zeta.
  unfold executor_result. cbn [data_pointers strides mem calls].
  rewrite ex_shape_prepare, ex_strides_prepare, ex_data_pointers_prepare.
  rewrite start_strides_vec.
  destruct (invoke_all_no_failure call_minifunc fp
    (leaf_invocations (collapse_shape contig ndim bshape)
       (arr_data <$> (out :: arrays))
       (plan_strides bshape <$> (out :: arrays)) ndim 0) (py_mem st) Hok)
    as [Hr Hmade].
  destruct (invoke_all _ _ _ _) as [[w' made] r]. simpl in *.
  by subst r made.
Qed.

(** X14.  The collapsing step keeps the recursion depth, so on four
    dimensions the contiguous kernel is invoked over [s0 * s3] indices of
    dimension 0 rather than [s0].  For a row-major output with [s0 >= 2],
    [s3 >= 2] and no empty dimension, strides planned as the design
    document describes and the loop extents within the range of the [int]
    counter, one of these invocations is handed, as the output address,
    the address of the first byte past the output buffer. *)
Theorem collapse_overruns_output fp (s0 s1 s2 s3 : Z) out arrays
    (st : py_state) :
  let bshape := [s0; s1; s2; s3] in
  let itemsize := dt_itemsize (arr_dtype out) in
  let nbytes := itemsize * (s0 * (s1 * (s2 * s3))) in
  arr_shape out = bshape →
  arr_strides out = c_strides itemsize bshape →
  0 < itemsize → 2 ≤ s0 → 1 ≤ s1 ≤ int_max → 1 ≤ s2 → 2 ≤ s3 →
  s0 * s3 ≤ int_max →
  shape_fits bshape →
  Forall (λ a, in_ptr_range (arr_data a)) (out :: arrays) →
  arr_data out + nbytes < ptr_modulus →
  (∀ c w0, (call_minifunc fp c w0).2 = None) →
  ∃ c,
    (fp, c)
      ∈ py_calls (run_ufunc call_minifunc fp bshape 4 out arrays true st).2
    ∧ k_data c !! 0%nat = Some (arr_data out + nbytes).
Proof.
  intros bshape itemsize nbytes Hshape Hstrides Hitem H0 H1 H2 H3 Hint Hfit
    Hptr Hend Hok.
  assert (Hcol : collapse_shape true 4 bshape = [s0 * s3; s1; s2; s3]).
  { rewrite collapse_shape_exact by done. subst bshape. simpl.
    unfold shape_at. simpl. f_equal. lia. }
  rewrite run_ufunc_calls_no_failure; [|done..| |done].
  2:{ rewrite Hcol. unfold int_extents. simpl.
      repeat constructor; [done|lia]. }
  rewrite Hcol.
  exists (leaf_args [s0 * s3; s1; s2; s3] (arr_data <$> (out :: arrays))
            (plan_strides bshape <$> (out :: arrays)) 0 [s0; 0]).
  split.
  - apply elem_of_app. right. apply list_elem_of_fmap_2.
    unfold leaf_invocations. apply list_elem_of_fmap_2.
    apply index_space_elem. simpl.
    repeat constructor; try lia. nia.
  - simpl. f_equal.
    unfold plan_strides. rewrite Hshape, Hstrides. subst bshape. simpl.
    rewrite (decide_False (P := s0 = 1)) by lia.
    unfold index_offset. simpl. unfold ptr_add.
    apply Forall_cons in Hptr as [Hout _].
    subst nbytes.
    match goal with
    | |- wrap_ptr ?x = _ =>
        replace x with (arr_data out + itemsize * (s0 * (s1 * (s2 * s3))))
          by lia
    end.
    apply wrap_ptr_small. unfold in_ptr_range in *.
    split; [|done].
    assert (0 ≤ itemsize * (s0 * (s1 * (s2 * s3)))); [|lia].
    repeat apply Z.mul_nonneg_nonneg; lia.
Qed.

End RunUfuncFacts.

(** * Properties of the ctypes path *)

Section CtypesFacts.

Context {World : Type}.
Variable make_array : string → nat → list Z → string + cvalue.
Variable ctypes_func : list cvalue → World → World * option string.

Abbreviation ctypes_run := (run_ufunc_ctypes make_array ctypes_func).

(** What [add_arg] appends for an operand: its data pointer under the
    ctypes type, and its own strides when it has [nd] dimensions, else the
    array ctypes builds from its strides behind the leading zeros. *)
Lemma add_arg_appends nd array ctypes_type call_args call_args' :
  add_arg make_array nd array ctypes_type call_args = CReturned call_args' →
  ∃ sv,
    (if decide (length (arr_shape array) = nd)
     then sv = CStrides (arr_strides array)
     else make_array ctypes_type nd
            (replicate (nd - length (arr_shape array)) 0 ++ arr_strides array)
          = inr sv)
    ∧ call_args' = call_args ++ [CData (arr_data array) ctypes_type; sv].
Proof.
  unfold add_arg. case_decide.
  - intros [= <-]. eexists. split; [done|]. by rewrite <- app_assoc.
  - destruct (make_array _ _ _) as [err|v] eqn:Hv; [done|].
    intros [= <-]. exists v. split; [done|]. by rewrite <- app_assoc.
Qed.

Lemma add_args_appends nd pairs :
  ∀ call_args call_args',
    add_args make_array nd pairs call_args = CReturned call_args' →
    ∃ svs,
      Forall2
        (λ (p : ndarray * string) sv,
           if decide (length (arr_shape p.1) = nd)
           then sv = CStrides (arr_strides p.1)
           else make_array p.2 nd
                  (replicate (nd - length (arr_shape p.1)) 0
                     ++ arr_strides p.1)
                = inr sv)
        pairs svs
      ∧ call_args'
        = call_args
          ++ (zip pairs svs ≫= λ q, [CData (arr_data q.1.1) q.1.2; q.2]).
Proof.
  induction pairs as [|[a t] pairs IH]; intros call_args call_args'; simpl.
  - intros [= <-]. exists []. split; [constructor|]. by rewrite app_nil_r.
  - destruct (add_arg make_array nd a t call_args) as [ca|e] eqn:Ha; [|done].
    intros Hrest. apply add_arg_appends in Ha as (sv & Hsv & ->).
    apply IH in Hrest as (svs & Hsvs & ->).
    exists (sv :: svs). split; [by constructor|].
    csimpl. by rewrite <- app_assoc.
Qed.

(** X15.  Whatever the arguments, [run_ufunc_ctypes] either raises with
    nothing changed and the foreign function not called, or calls the
    foreign function exactly once.  The one argument list is the shape
    array followed, for the output and then for each operand that has a
    ctypes argument type, in order, by its data pointer under its ctypes
    type and a strides array: its own strides when it has as many
    dimensions as the broadcast, else the array ctypes built from its
    strides behind the leading zeros.  Operands and types beyond the
    shorter of the two lists are dropped.  When the foreign function
    returns, the method returns the output array it was given. *)
Theorem ctypes_call_once bshape ctypes_ret_type ctypes_arg_types out args
    (st : ctypes_state) :
  let res :=
    ctypes_run bshape ctypes_ret_type ctypes_arg_types out args st in
  let nd := length bshape in
  let pairs := (out, ctypes_ret_type) :: zip args ctypes_arg_types in
  (∃ e, res = (CRaised e, st))
  ∨ ∃ svs,
      Forall2
        (λ (p : ndarray * string) sv,
           if decide (length (arr_shape p.1) = nd)
           then sv = CStrides (arr_strides p.1)
           else make_array p.2 nd
                  (replicate (nd - length (arr_shape p.1)) 0
                     ++ arr_strides p.1)
                = inr sv)
        pairs svs
      ∧ let call_args :=
          CShape bshape
            :: (zip pairs svs ≫= λ q, [CData (arr_data q.1.1) q.1.2; q.2]) in
        res.2
        = CtypesState (ctypes_func call_args (ct_mem st)).1
            (ct_calls st ++ [call_args])
        ∧ res.1
          = match (ctypes_func call_args (ct_mem st)).2 with
            | Some err => CRaised (CtypesError err)
            | None => CReturned out
            end.
Proof.
  intros res nd pairs. subst res nd pairs. unfold run_ufunc_ctypes.
  destruct args as [|a0 args']; [left; by eexists|].
  cbv zeta.
  destruct (add_arg make_array (length bshape) out ctypes_ret_type _)
    as [ca|e] eqn:Hout; [|left; by eexists].
  destruct (add_args make_array (length bshape) _ ca) as [ca'|e] eqn:Hargs;
    [|left; by eexists].
  right. apply add_arg_appends in Hout as (sv & Hsv & ->).
  apply add_args_appends in Hargs as (svs & Hsvs & ->).
  exists (sv :: svs). split; [by constructor|].
  csimpl. by destruct (ctypes_func _ (ct_mem st)) as [w [err|]].
Qed.



(** X17.  With at least one operand and one ctypes argument type, operands
    beyond the number of argument types make no difference: they are
    silently left out of the call. *)
Theorem ctypes_surplus_operands_dropped bshape ctypes_ret_type
    ctypes_arg_types out args (st : ctypes_state) :
  args ≠ [] → ctypes_arg_types ≠ [] →
  ctypes_run bshape ctypes_ret_type ctypes_arg_types out args st
  = ctypes_run bshape ctypes_ret_type ctypes_arg_types out
      (take (length ctypes_arg_types) args) st.
Proof.
  intros Hargs Htypes. unfold run_ufunc_ctypes.
  assert (Hzip : ∀ (l : list ndarray) (k : list string),
    zip (take (length k) l) k = zip l k).
  { induction l as [|x l IH]; intros [|y k]; simpl; [done..|].
    by rewrite IH. }
  rewrite Hzip.
  destruct args as [|a0 args']; [done|].
  destruct ctypes_arg_types as [|t0 types']; [done|]. done.
Qed.

End CtypesFacts.

(** * Concrete runs of the further properties *)

Lemma executor_restores_scratch_witness :
  let m := Machine [1000] [StridePtr [8; 8; 8] 0] () [] in
  let res := run_higher_dimensional recording_kernel 7 [2; 1; 1] 3 1 0 m in
  data_pointers res.2 = [1000] ∧ strides res.2 = [StridePtr [8; 8; 8] 0].
Proof.
  intros m.
  apply (executor_restores_scratch recording_kernel 7 [2; 1; 1] 1 3 0 m).
  - unfold exec_wf. simpl. repeat split; repeat constructor;
      unfold ptr_modulus; lia.
  - reflexivity.
Defined.

Lemma executor_exception_is_kernel_error_witness :
  let m := Machine [1000] [StridePtr [8; 8; 8] 0] () [] in
  let c0 := KernelArgs [1; 1] [1000] [[8; 8]] in
  let c1 := KernelArgs [1; 1] [1008] [[8; 8]] in
  let m' := Machine [1008] [StridePtr [8; 8; 8] 1] () [(7, c0); (7, c1)] in
  ∃ err c w0,
    Raised (A := ()) (KernelError "domain error") = Raised (KernelError err)
    ∧ last (calls m') = Some (7, c)
    ∧ failing_kernel [1008] 7 c w0 = (mem m', Some err).
Proof.
  intros m c0 c1 m'.
  destruct (executor_exception_is_kernel_error (failing_kernel [1008]) 7
              [2; 1; 1] 1 3 0 m m' (KernelError "domain error"))
    as (err & c & w0 & He & Hlast & Hcall).
  - reflexivity.
  - exists err, c, w0. split; [by rewrite He|]. split; [exact Hlast|exact Hcall].
Defined.

Lemma empty_dimension_runs_no_kernel_witness :
  let m := Machine [4096] [StridePtr [0; 72; 24; 8] 0] () [] in
  run_higher_dimensional recording_kernel 7 [2; 0; 3; 3] 4 1 0 m
  = (Returned (), m).
Proof.
  intros m.
  apply (empty_dimension_runs_no_kernel recording_kernel 7 [2; 0; 3; 3] 1 4 0
           m 1).
  - unfold exec_wf. simpl. repeat split; repeat constructor;
      unfold ptr_modulus; lia.
  - simpl. lia.
  - reflexivity.
  - repeat constructor. unfold int_max. lia.
Defined.

Lemma leaf_sees_innermost_dimensions_witness :
  Forall (λ entry : Z * kernel_args,
            k_shape entry.2 = [2; 3] ∧ k_strides entry.2 = [[24; 8]])
    (calls
       (run_higher_dimensional recording_kernel 7 [2; 3; 2; 3] 4 1 0
          (Machine [4096] [StridePtr [144; 48; 24; 8] 0] () [])).2).
Proof.
  apply Forall_forall. intros entry Hin.
  destruct (leaf_sees_innermost_dimensions recording_kernel 7 [2; 3; 2; 3] 4
              [4096] [[144; 48; 24; 8]] () eq_refl eq_refl) with (entry := entry)
    as (Hshape & Hstrides & _).
  - repeat constructor.
  - repeat constructor; unfold ptr_modulus; lia.
  - repeat constructor; lia.
  - exact Hin.
  - split; [exact Hshape|exact Hstrides].
Defined.

Lemma invocation_count_witness :
  Z.of_nat
    (length
       (calls
          (run_higher_dimensional recording_kernel 7 [2; 3; 2; 3] 4 1 0
             (Machine [4096] [StridePtr [144; 48; 24; 8] 0] () [])).2))
  = 6.
Proof.
  apply (invocation_count recording_kernel 7 [2; 3; 2; 3] 4 [4096]
           [[144; 48; 24; 8]] ()).
  - reflexivity.
  - reflexivity.
  - repeat constructor.
  - repeat constructor; unfold ptr_modulus; lia.
  - repeat constructor; lia.
  - repeat constructor; unfold int_max; lia.
  - reflexivity.
Defined.

Lemma allocated_output_buffer_witness :
  let a := NDArray float64 [3; 4] [32; 8] 4096 in
  py_allocated
    (model_call recording_kernel model_dispatcher [a] None fresh_state).2
  = [NDArray float64 [3; 4] [32; 8] 65536].
Proof.
  intros a.
  apply (allocated_output_buffer recording_kernel model_get_arrays_ordering
           MODEL_ARRAY_C_ORDER MODEL_ARRAYS_ARE_CONTIG
           MODEL_ARRAYS_ARE_INNER_CONTIG MODEL_ARRAYS_ARE_MIXED_CONTIG
           MODEL_ARRAYS_ARE_MIXED_STRIDED model_dispatcher [a] fresh_state
           [3; 4] model_bundle).
  - reflexivity.
  - reflexivity.
  - vm_compute. reflexivity.
Defined.

Lemma call_invokes_selected_kernel_witness :
  let a := NDArray float64 [3; 4] [64; 16] 4096 in
  ∃ made,
    py_calls
      (model_call recording_kernel model_dispatcher [a] None fresh_state).2
    = (strided_func model_bundle,.) <$> made
    ∧ Forall (λ c, k_shape c = [3; 4]
                   ∧ k_strides c = [[32; 8]; [64; 16]]
                   ∧ length (k_data c) = 2%nat) made
    ∧ ∀ c, head made = Some c → k_data c = [65536; 4096].
Proof.
  intros a.
  apply (call_invokes_selected_kernel recording_kernel
           model_get_arrays_ordering MODEL_ARRAY_C_ORDER
           MODEL_ARRAYS_ARE_CONTIG MODEL_ARRAYS_ARE_INNER_CONTIG
           MODEL_ARRAYS_ARE_MIXED_CONTIG MODEL_ARRAYS_ARE_MIXED_STRIDED
           model_dispatcher [a] None fresh_state [3; 4] model_bundle).
  - reflexivity.
  - reflexivity.
  - vm_compute. reflexivity.
Defined.

Lemma low_dimensional_single_invocation_witness :
  let out := NDArray float64 [3; 4] [32; 8] 8192 in
  let a := NDArray float64 [4] [8] 4096 in
  run_ufunc recording_kernel 14 [3; 4] 2 out [a] false fresh_state
  = (Returned PyNone,
     PyState ()
       [(14, KernelArgs [3; 4] [8192; 4096] [[32; 8]; [0; 8]])] [] 65536 0).
Proof.
  intros out a.
  apply (low_dimensional_single_invocation recording_kernel 14 [3; 4] 2 out
           [a] false fresh_state).
  lia.
Defined.

Lemma collapse_overruns_output_witness :
  let out := NDArray float64 [2; 1; 1; 2] [16; 16; 16; 8] 4096 in
  let a := NDArray float64 [2; 1; 1; 2] [16; 16; 16; 8] 8192 in
  ∃ c,
    (11, c)
      ∈ py_calls
          (run_ufunc recording_kernel 11 [2; 1; 1; 2] 4 out [a] true
             fresh_state).2
    ∧ k_data c !! 0%nat = Some (4096 + 32).
Proof.
  intros out a.
  apply (collapse_overruns_output recording_kernel 11 2 1 1 2 out [a]
           fresh_state).
  - reflexivity.
  - reflexivity.
  - simpl. lia.
  - lia.
  - unfold int_max. lia.
  - lia.
  - lia.
  - unfold int_max. lia.
  - split; [repeat constructor; lia | vm_compute; congruence].
  - repeat constructor; simpl; unfold ptr_modulus; lia.
  - simpl. unfold ptr_modulus. lia.
  - reflexivity.
Defined.


Lemma ctypes_surplus_operands_dropped_witness :
  let out := NDArray float64 [3; 4] [32; 8] 8192 in
  let a := NDArray float64 [3; 4] [32; 8] 4096 in
  let b := NDArray float64 [4] [8] 2048 in
  run_ufunc_ctypes padded_array foreign_double [3; 4] "double*" ["double*"]
    out [a; b] (CtypesState () [])
  = run_ufunc_ctypes padded_array foreign_double [3; 4] "double*" ["double*"]
      out [a] (CtypesState () []).
Proof.
  intros out a b.
  apply (ctypes_surplus_operands_dropped padded_array foreign_double [3; 4]
           "double*" ["double*"] out [a; b] (CtypesState () []));
    discriminate.
Defined.

(** * Further properties: memory and the supplied output *)

Section MoreFacts.

Context {World : Type}.
Variable call_minifunc : Z → kernel_args → World → World * option string.
Variable get_arrays_ordering : list ndarray → Z.
Variables ARRAY_C_ORDER ARRAYS_ARE_CONTIG ARRAYS_ARE_INNER_CONTIG : Z.
Variables ARRAYS_ARE_MIXED_CONTIG ARRAYS_ARE_MIXED_STRIDED : Z.

(** X18.  Where the extents of the enclosing dimensions are within the
    range of the [int] loop counter, the executor is the loop nest it
    emulates: its outcome and the memory it leaves are those of calling the
    kernel on the leaf invocations of the full index computation, one after
    the other in lexicographic order, up to the first call that fails. *)
Theorem executor_is_sequential fp shape ndim dps svecs (w : World) :
  length shape = ndim → length svecs = length dps →
  Forall (λ sv, length sv = ndim) svecs →
  Forall in_ptr_range dps → Forall (λ e, 0 ≤ e) shape →
  Forall (λ e, e ≤ int_max) (take (ndim - 2) shape) →
  let res :=
    run_higher_dimensional call_minifunc fp shape ndim (length dps) 0
      (Machine dps ((λ v, StridePtr v 0) <$> svecs) w []) in
  let seq_run :=
    invoke_all call_minifunc fp (leaf_invocations shape dps svecs ndim 0) w in
  mem res.2 = seq_run.1.1
  ∧ calls res.2 = (fp,.) <$> seq_run.1.2
  ∧ res.1 = match seq_run.2 with
            | None => Returned ()
            | Some (_, err) => Raised (KernelError err)
            end.
Proof.
  intros Hshape Hlen Hsv Hrange Hnn Hint res seq_run. subst res seq_run.
  rewrite run_higher_dimensional_result; [|by apply exec_wf_start|done].
  unfold executor_result. cbn [data_pointers strides mem calls].
  rewrite start_strides_vec.
  by destruct (invoke_all _ _ _ _) as [[w' made] [[c err]|]].
Qed.

(** X19.  The dtype of a supplied output is never looked at: the lookup key
    is made of the dtypes of the inputs and the broadcast dimensionality,
    and the result dtype of the bundle is used for allocation only.  A call
    with an output of any other dtype, at the same address with the same
    shape and strides, goes exactly the same way. *)
Theorem call_ignores_output_dtype self args o dt (st : py_state) :
  UFuncDispatcher_call call_minifunc get_arrays_ordering ARRAY_C_ORDER
    ARRAYS_ARE_CONTIG ARRAYS_ARE_INNER_CONTIG ARRAYS_ARE_MIXED_CONTIG
    ARRAYS_ARE_MIXED_STRIDED self args
    (Some (NDArray dt (arr_shape o) (arr_strides o) (arr_data o))) st
  = UFuncDispatcher_call call_minifunc get_arrays_ordering ARRAY_C_ORDER
      ARRAYS_ARE_CONTIG ARRAYS_ARE_INNER_CONTIG ARRAYS_ARE_MIXED_CONTIG
      ARRAYS_ARE_MIXED_STRIDED self args (Some o) st.
Proof.
  set (o' := NDArray dt (arr_shape o) (arr_strides o) (arr_data o)).
  unfold UFuncDispatcher_call. case_decide; [done|]. simpl.
  assert (Hshapes : arr_shape <$> (args ++ [o']) = arr_shape <$> (args ++ [o]))
    by (by rewrite !fmap_app).
  rewrite Hshapes.
  destruct (np_broadcast _) as [bshape|]; [|done].
  destruct (functions self !! _) as [bundle|]; [|done].
  assert (Hb : is_broadcasting (args ++ [o']) bshape
               = is_broadcasting (args ++ [o]) bshape).
  { unfold is_broadcasting. by rewrite !existsb_app. }
  rewrite Hb. unfold run_ufunc. cbv zeta.
  assert (Hex : ∀ contig,
    prepare_executor bshape (length bshape) o' args contig
    = prepare_executor bshape (length bshape) o args contig) by done.
  by rewrite Hex.
Qed.

End MoreFacts.

(** * Concrete runs: memory and the supplied output *)

Lemma executor_is_sequential_witness :
  let res :=
    run_higher_dimensional (storing_kernel 4240) 7 [2; 3; 2; 3] 4 1 0
      (Machine [4096] [StridePtr [144; 48; 24; 8] 0] [] []) in
  mem res.2 = [4096; 4144; 4192; 4240]
  ∧ length (calls res.2) = 4%nat
  ∧ res.1 = Raised (KernelError "domain error").
Proof.
  destruct (executor_is_sequential (storing_kernel 4240) 7 [2; 3; 2; 3] 4
              [4096] [[144; 48; 24; 8]] [] eq_refl eq_refl)
    as (Hmem & Hcalls & Hres).
  - repeat constructor.
  - repeat constructor; unfold ptr_modulus; lia.
  - repeat constructor; lia.
  - repeat constructor; unfold int_max; lia.
  - split; [exact Hmem|]. split; [|exact Hres].
    exact (f_equal length Hcalls).
Defined.
